(** * goog-gestures: the pan gesture recognizer

    A shallow embedding of [src/goog/dom/gestures/panrecognizer.js] and the
    properties its specification states about it.

    JavaScript numbers are IEEE 754 binary64 values: they are modelled by
    Rocq's primitive floats, so every arithmetic step below rounds exactly as
    the script does.  Touch counts, which the setters force to 32-bit
    integers with [value |= 0], are modelled by [Z].  A method of the
    recognizer is a computation over the receiver ([this]) and the log of
    the callback invocations it performs; a failed [goog.asserts.assert] is a
    thrown [AssertionError] that leaves the receiver as it was at the throw. *)

From Stdlib Require Import ZArith List Bool QArith Qround Qabs Qpower Floats
  Uint63 Lia.
Import ListNotations.

Set Warnings "-inexact-float".

(* ================================================================== *)
(** ** JavaScript numbers *)

Module JS.

Definition number := float.

(** [ToBoolean] on a number: [+0], [-0] and [NaN] are falsy. *)
Definition ToBoolean (x : number) : bool :=
  negb (PrimFloat.is_zero x || PrimFloat.is_nan x).

(** [a || b] on numbers yields [a] when it is truthy and [b] otherwise. *)
Definition or (a b : number) : number :=
  if ToBoolean a then a else b.

(** [a > b]; false as soon as one side is [NaN]. *)
Definition gt (a b : number) : bool := PrimFloat.ltb b a.

Definition Math_sqrt (x : number) : number := PrimFloat.sqrt x.

(** The number of elements of an array, as a number. *)
Definition of_length (n : nat) : number :=
  PrimFloat.of_uint63 (Uint63.of_Z (Z.of_nat n)).

(** The rational a finite number denotes ([0] for the infinities and NaN,
    which [isFinite] below tells apart). *)
Definition SF2Q (s : spec_float) : Q :=
  match s with
  | S754_finite sg m e =>
      let q := (inject_Z (Z.pos m) * Qpower 2 e)%Q in
      if sg then Qopp q else q
  | _ => 0%Q
  end.

Definition value (x : number) : Q := SF2Q (Prim2SF x).

(** Truncation toward zero: [sign(x) * floor(abs(x))]. *)
Definition truncate (x : number) : Z :=
  let q := value x in
  if Qle_bool 0 q then Qfloor q else Qceiling q.

(** A number that is not an integer (NaN and the infinities, whose
    [value] is [0], are not fractional). *)
Definition fractional (x : number) : Prop :=
  ~ (value x == inject_Z (truncate x))%Q.

(** ECMAScript's [ToInt32]: NaN, zeros and infinities give [0] (their
    truncation is [0]); otherwise the truncation is reduced modulo [2^32]
    into the signed range [-2^31 .. 2^31 - 1]. *)
Definition ToInt32 (x : number) : Z :=
  let int32bit := (truncate x mod 2 ^ 32)%Z in
  if (2 ^ 31 <=? int32bit)%Z then (int32bit - 2 ^ 32)%Z else int32bit.

(** [a | b]: both operands go through [ToInt32]. *)
Definition bitor (a b : number) : Z := Z.lor (ToInt32 a) (ToInt32 b).

(** Neither NaN nor an infinity. *)
Definition isFinite (x : number) : bool :=
  match Prim2SF x with
  | S754_zero _ | S754_finite _ _ _ => true
  | S754_infinity _ | S754_nan => false
  end.

(** A subtraction, respectively an addition, that incurs no rounding. *)
Definition exact_sub (a b : number) : Prop :=
  isFinite (a - b)%float = true /\
  (value (a - b)%float == value a - value b)%Q.

Definition exact_add (a b : number) : Prop :=
  isFinite (a + b)%float = true /\
  (value (a + b)%float == value a + value b)%Q.

Arguments ToBoolean x%_float.
Arguments or a%_float b%_float.
Arguments gt a%_float b%_float.
Arguments Math_sqrt x%_float.
Arguments value x%_float.
Arguments truncate x%_float.
Arguments fractional x%_float.
Arguments ToInt32 x%_float.
Arguments bitor a%_float b%_float.
Arguments isFinite x%_float.
Arguments exact_sub a%_float b%_float.
Arguments exact_add a%_float b%_float.

End JS.

(* ================================================================== *)
(** ** Touch events and gesture states *)

(** A contact of the host's [TouchEvent]. *)
Record Touch := {
  identifier : Z;
  pageX : JS.number;
  pageY : JS.number
}.

(** The payload of a touch event: every active contact, and those whose
    origin is the element the recognizer is bound to. *)
Record TouchEvent := {
  touches : list Touch;
  targetTouches : list Touch
}.

(** Modelled from the spec: the enumeration [goog.dom.gestures.State], whose
    declaration is not part of the sources at hand: POSSIBLE, BEGAN, CHANGED,
    ENDED, RECOGNIZED, FAILED, CANCELLED. *)
Inductive State :=
  | POSSIBLE | BEGAN | CHANGED | ENDED | RECOGNIZED | FAILED | CANCELLED.

Definition State_eqb (a b : State) : bool :=
  match a, b with
  | POSSIBLE, POSSIBLE | BEGAN, BEGAN | CHANGED, CHANGED | ENDED, ENDED
  | RECOGNIZED, RECOGNIZED | FAILED, FAILED | CANCELLED, CANCELLED => true
  | _, _ => false
  end.

(* ================================================================== *)
(** ** The recognizer object *)

(** The fields of a [goog.dom.gestures.PanRecognizer]: three of the base
    class (the state, and the centroid of the tracked contacts), then those
    the constructor of the pan recognizer adds.  The target element, the
    callback and its scope never change; an invocation of the callback is
    recorded in the log of the computation instead. *)
Record PanRecognizer := {
  state_ : State;
  pageX_ : JS.number;
  pageY_ : JS.number;
  minTouchCount_ : Z;
  maxTouchCount_ : Z;
  moveHysteresis_ : JS.number;
  centroidStartX_ : JS.number;
  centroidStartY_ : JS.number;
  centroidShiftX_ : JS.number;
  centroidShiftY_ : JS.number;
  centroidDistance_ : JS.number
}.

Definition set_state_ (v : State) (r : PanRecognizer) : PanRecognizer :=
  {| state_ := v; pageX_ := pageX_ r; pageY_ := pageY_ r;
     minTouchCount_ := minTouchCount_ r; maxTouchCount_ := maxTouchCount_ r;
     moveHysteresis_ := moveHysteresis_ r;
     centroidStartX_ := centroidStartX_ r; centroidStartY_ := centroidStartY_ r;
     centroidShiftX_ := centroidShiftX_ r; centroidShiftY_ := centroidShiftY_ r;
     centroidDistance_ := centroidDistance_ r |}.

Definition set_page_ (x y : JS.number) (r : PanRecognizer) : PanRecognizer :=
  {| state_ := state_ r; pageX_ := x; pageY_ := y;
     minTouchCount_ := minTouchCount_ r; maxTouchCount_ := maxTouchCount_ r;
     moveHysteresis_ := moveHysteresis_ r;
     centroidStartX_ := centroidStartX_ r; centroidStartY_ := centroidStartY_ r;
     centroidShiftX_ := centroidShiftX_ r; centroidShiftY_ := centroidShiftY_ r;
     centroidDistance_ := centroidDistance_ r |}.

Definition set_minTouchCount_ (v : Z) (r : PanRecognizer) : PanRecognizer :=
  {| state_ := state_ r; pageX_ := pageX_ r; pageY_ := pageY_ r;
     minTouchCount_ := v; maxTouchCount_ := maxTouchCount_ r;
     moveHysteresis_ := moveHysteresis_ r;
     centroidStartX_ := centroidStartX_ r; centroidStartY_ := centroidStartY_ r;
     centroidShiftX_ := centroidShiftX_ r; centroidShiftY_ := centroidShiftY_ r;
     centroidDistance_ := centroidDistance_ r |}.

Definition set_maxTouchCount_ (v : Z) (r : PanRecognizer) : PanRecognizer :=
  {| state_ := state_ r; pageX_ := pageX_ r; pageY_ := pageY_ r;
     minTouchCount_ := minTouchCount_ r; maxTouchCount_ := v;
     moveHysteresis_ := moveHysteresis_ r;
     centroidStartX_ := centroidStartX_ r; centroidStartY_ := centroidStartY_ r;
     centroidShiftX_ := centroidShiftX_ r; centroidShiftY_ := centroidShiftY_ r;
     centroidDistance_ := centroidDistance_ r |}.

Definition set_centroidStartX_ (v : JS.number) (r : PanRecognizer)
  : PanRecognizer :=
  {| state_ := state_ r; pageX_ := pageX_ r; pageY_ := pageY_ r;
     minTouchCount_ := minTouchCount_ r; maxTouchCount_ := maxTouchCount_ r;
     moveHysteresis_ := moveHysteresis_ r;
     centroidStartX_ := v; centroidStartY_ := centroidStartY_ r;
     centroidShiftX_ := centroidShiftX_ r; centroidShiftY_ := centroidShiftY_ r;
     centroidDistance_ := centroidDistance_ r |}.

Definition set_centroidStartY_ (v : JS.number) (r : PanRecognizer)
  : PanRecognizer :=
  {| state_ := state_ r; pageX_ := pageX_ r; pageY_ := pageY_ r;
     minTouchCount_ := minTouchCount_ r; maxTouchCount_ := maxTouchCount_ r;
     moveHysteresis_ := moveHysteresis_ r;
     centroidStartX_ := centroidStartX_ r; centroidStartY_ := v;
     centroidShiftX_ := centroidShiftX_ r; centroidShiftY_ := centroidShiftY_ r;
     centroidDistance_ := centroidDistance_ r |}.

Definition set_centroidShiftX_ (v : JS.number) (r : PanRecognizer)
  : PanRecognizer :=
  {| state_ := state_ r; pageX_ := pageX_ r; pageY_ := pageY_ r;
     minTouchCount_ := minTouchCount_ r; maxTouchCount_ := maxTouchCount_ r;
     moveHysteresis_ := moveHysteresis_ r;
     centroidStartX_ := centroidStartX_ r; centroidStartY_ := centroidStartY_ r;
     centroidShiftX_ := v; centroidShiftY_ := centroidShiftY_ r;
     centroidDistance_ := centroidDistance_ r |}.

Definition set_centroidShiftY_ (v : JS.number) (r : PanRecognizer)
  : PanRecognizer :=
  {| state_ := state_ r; pageX_ := pageX_ r; pageY_ := pageY_ r;
     minTouchCount_ := minTouchCount_ r; maxTouchCount_ := maxTouchCount_ r;
     moveHysteresis_ := moveHysteresis_ r;
     centroidStartX_ := centroidStartX_ r; centroidStartY_ := centroidStartY_ r;
     centroidShiftX_ := centroidShiftX_ r; centroidShiftY_ := v;
     centroidDistance_ := centroidDistance_ r |}.

Definition set_centroidDistance_ (v : JS.number) (r : PanRecognizer)
  : PanRecognizer :=
  {| state_ := state_ r; pageX_ := pageX_ r; pageY_ := pageY_ r;
     minTouchCount_ := minTouchCount_ r; maxTouchCount_ := maxTouchCount_ r;
     moveHysteresis_ := moveHysteresis_ r;
     centroidStartX_ := centroidStartX_ r; centroidStartY_ := centroidStartY_ r;
     centroidShiftX_ := centroidShiftX_ r; centroidShiftY_ := centroidShiftY_ r;
     centroidDistance_ := v |}.

(* ================================================================== *)
(** ** Method bodies as computations *)

Inductive Error := AssertionError.

Inductive Completion (A : Type) :=
  | Normal (a : A)
  | Throw (err : Error).
Arguments Normal {A} a.
Arguments Throw {A} err.

(** What a method acts on: its receiver, and the states in which the
    registered callback has been invoked so far, oldest first. *)
Record World := {
  this : PanRecognizer;
  fired : list State
}.

Definition M (A : Type) : Type := World -> Completion A * World.

Definition ret {A} (a : A) : M A := fun w => (Normal a, w).

Definition bind {A B} (m : M A) (k : A -> M B) : M B :=
  fun w =>
    match m w with
    | (Normal a, w') => k a w'
    | (Throw err, w') => (Throw err, w')
    end.

Declare Scope js_scope.
Delimit Scope js_scope with js.
Notation "x <- m ;; k" := (bind m (fun x => k))
  (at level 61, m at next level, right associativity) : js_scope.
Notation "m ;; k" := (bind m (fun _ => k))
  (at level 61, right associativity) : js_scope.
Open Scope js_scope.

Definition throw {A} (err : Error) : M A := fun w => (Throw err, w).

(** Reading a field of [this], and assigning to fields of [this]. *)
Definition get {A} (field : PanRecognizer -> A) : M A :=
  fun w => (Normal (field (this w)), w).

Definition modify (f : PanRecognizer -> PanRecognizer) : M unit :=
  fun w => (Normal tt, {| this := f (this w); fired := fired w |}).

(** The callback is handed the recognizer; the log keeps the state it
    reads there. *)
Definition invokeCallback : M unit :=
  fun w => (Normal tt,
            {| this := this w; fired := fired w ++ [state_ (this w)] |}).

(** An [if] without [else]. *)
Definition when (c : bool) (m : M unit) : M unit :=
  if c then m else ret tt.

(** [goog.asserts.assert] of the Closure Library, assertions enabled (its
    default): a false condition throws. *)
Definition goog_asserts_assert (condition : bool) : M unit :=
  if condition then ret tt else throw AssertionError.

(** Running a method on a receiver, from an empty log. *)
Definition run {A} (m : M A) (r : PanRecognizer) : Completion A * World :=
  m {| this := r; fired := [] |}.

Definition outcome {A} (m : M A) (r : PanRecognizer) : Completion A :=
  fst (run m r).

Definition after {A} (m : M A) (r : PanRecognizer) : PanRecognizer :=
  this (snd (run m r)).

Definition callbacks {A} (m : M A) (r : PanRecognizer) : list State :=
  fired (snd (run m r)).

(* ================================================================== *)
(** ** The base class [goog.dom.gestures.Recognizer] *)

Module Recognizer.

(** Modelled from the spec: [getState] of the base class, which is not
    part of the sources at hand: the current state. *)
Definition getState : M State := get state_.

(** Modelled from the spec: [setState] of the base class: the state is
    assigned and the registered callback is invoked synchronously, also
    when CHANGED is set again while CHANGED. *)
Definition setState (value : State) : M unit :=
  modify (set_state_ value) ;;
  invokeCallback.

(** Modelled from the spec: [reset] of the base class: the recognizer
    returns to POSSIBLE, ready to recognize again. *)
Definition reset : M unit := modify (set_state_ POSSIBLE).

(** Modelled from the spec: the accessors of the latest known centroid of
    the tracked contacts. *)
Definition getPageX : M JS.number := get pageX_.
Definition getPageY : M JS.number := get pageY_.

(** Modelled from the spec: the centroid of a set of contacts is the
    arithmetic mean of their positions; the coordinates are summed in
    order and divided by the number of contacts. *)
Definition centroid (touches : list Touch) : JS.number * JS.number :=
  let x := fold_left (fun acc t => (acc + pageX t)%float) touches 0%float in
  let y := fold_left (fun acc t => (acc + pageY t)%float) touches 0%float in
  let n := JS.of_length (length touches) in
  ((x / n)%float, (y / n)%float).

(** Modelled from the spec: [updateLocation] of the base class: the
    tracked centroid becomes that of the given contacts. *)
Definition updateLocation (touches : list Touch) : M unit :=
  let c := centroid touches in
  modify (set_page_ (fst c) (snd c)).

(** Modelled from the spec: what the constructor of the base class
    leaves: the state POSSIBLE and no contact tracked yet. *)
Definition initial_state : State := POSSIBLE.
Definition initial_page : JS.number := 0%float.

End Recognizer.

(* ================================================================== *)
(** ** [goog.dom.gestures.PanRecognizer] *)

Import Recognizer.

(** The constructor. *)
Definition new_PanRecognizer : PanRecognizer :=
  {| state_ := initial_state;
     pageX_ := initial_page;
     pageY_ := initial_page;
     minTouchCount_ := 1;
     maxTouchCount_ := 999;
     moveHysteresis_ := 6%float;
     centroidStartX_ := 0%float;
     centroidStartY_ := 0%float;
     centroidShiftX_ := 0%float;
     centroidShiftY_ := 0%float;
     centroidDistance_ := 0%float |}.

Definition getMinimumTouchCount : M Z := get minTouchCount_.

Definition setMinimumTouchCount (value : JS.number) : M unit :=
  s <- getState ;;
  goog_asserts_assert (State_eqb s POSSIBLE) ;;
  let value := JS.bitor value 0%float in
  goog_asserts_assert (1 <=? value)%Z ;;
  modify (set_minTouchCount_ value).

Arguments setMinimumTouchCount value%_float.

Definition getMaximumTouchCount : M Z := get maxTouchCount_.

Definition setMaximumTouchCount (value : JS.number) : M unit :=
  s <- getState ;;
  goog_asserts_assert (State_eqb s POSSIBLE) ;;
  let value := JS.bitor value 0%float in
  goog_asserts_assert (1 <=? value)%Z ;;
  modify (set_maxTouchCount_ value).

Arguments setMaximumTouchCount value%_float.

Definition getTranslateX : M JS.number :=
  pageX <- getPageX ;;
  startX <- get centroidStartX_ ;;
  shiftX <- get centroidShiftX_ ;;
  ret (pageX - startX + shiftX)%float.

Definition getTranslateY : M JS.number :=
  pageY <- getPageY ;;
  startY <- get centroidStartY_ ;;
  shiftY <- get centroidShiftY_ ;;
  ret (pageY - startY + shiftY)%float.

Definition reset : M unit :=
  modify (set_centroidStartY_ 0%float) ;;
  modify (set_centroidStartX_ 0%float) ;;
  modify (set_centroidShiftY_ 0%float) ;;
  modify (set_centroidShiftX_ 0%float) ;;
  modify (set_centroidDistance_ 0%float) ;;
  Recognizer.reset.

Definition touchesBegan (e : TouchEvent) : M unit :=
  oldPageX <- getPageX ;;
  oldPageY <- getPageY ;;
  updateLocation (targetTouches e) ;;
  s <- getState ;;
  when (State_eqb s CHANGED) (
    (* New touch while recognizing, shift centroid *)
    shiftX <- get centroidShiftX_ ;;
    pageX <- getPageX ;;
    modify (set_centroidShiftX_ (shiftX - (pageX - oldPageX))%float) ;;
    shiftY <- get centroidShiftY_ ;;
    pageY <- getPageY ;;
    modify (set_centroidShiftY_ (shiftY - (pageY - oldPageY))%float) ;;
    maxTouchCount <- get maxTouchCount_ ;;
    when (maxTouchCount <? Z.of_nat (length (targetTouches e)))%Z (
      (* Exceeded touch count, stop recognizing *)
      setState ENDED ;;
      reset)).

Definition touchesMoved (e : TouchEvent) : M unit :=
  minTouchCount <- get minTouchCount_ ;;
  maxTouchCount <- get maxTouchCount_ ;;
  let count := Z.of_nat (length (targetTouches e)) in
  (* Ignore if out of touch range *)
  if ((count <? minTouchCount) || (maxTouchCount <? count))%Z then ret tt
  else
    (* Grab the latest centroid position *)
    oldPageX <- getPageX ;;
    oldPageY <- getPageY ;;
    updateLocation (targetTouches e) ;;
    pageX <- getPageX ;;
    pageY <- getPageY ;;
    (* Compute distance moved *)
    let dx := (pageX - oldPageX)%float in
    let dy := (pageY - oldPageY)%float in
    distance <- get centroidDistance_ ;;
    modify (set_centroidDistance_
              (distance + JS.Math_sqrt (dx * dx + dy * dy))%float) ;;
    (* Begin if we have moved far enough *)
    s <- getState ;;
    distance <- get centroidDistance_ ;;
    moveHysteresis <- get moveHysteresis_ ;;
    if State_eqb s POSSIBLE && JS.gt distance moveHysteresis then
      (* Moved far enough, start! *)
      modify (set_centroidStartX_ pageX) ;;
      modify (set_centroidStartY_ pageY) ;;
      modify (set_centroidShiftY_ 0%float) ;;
      modify (set_centroidShiftX_ 0%float) ;;
      setState BEGAN ;;
      setState CHANGED
    else
      s <- getState ;;
      when (JS.ToBoolean (JS.or dx dy) && State_eqb s CHANGED) (
        (* Normal update *)
        setState CHANGED).

Definition touchesEnded (e : TouchEvent) : M unit :=
  s <- getState ;;
  when (State_eqb s CHANGED) (
    minTouchCount <- get minTouchCount_ ;;
    if (minTouchCount <=? Z.of_nat (length (targetTouches e)))%Z then
      (* Still have some valid touches - shift centroid *)
      oldPageX <- getPageX ;;
      oldPageY <- getPageY ;;
      updateLocation (targetTouches e) ;;
      shiftX <- get centroidShiftX_ ;;
      pageX <- getPageX ;;
      modify (set_centroidShiftX_ (shiftX - (pageX - oldPageX))%float) ;;
      shiftY <- get centroidShiftY_ ;;
      pageY <- getPageY ;;
      modify (set_centroidShiftY_ (shiftY - (pageY - oldPageY))%float)
    else
      (* Not enough touches *)
      setState ENDED ;;
      reset).

Definition touchesCancelled (e : TouchEvent) : M unit :=
  setState CANCELLED ;;
  reset.

(** The value a getter returns on a receiver ([0] is never used: the
    getters do not throw). *)
Definition read (m : M JS.number) (r : PanRecognizer) : JS.number :=
  match outcome m r with
  | Normal v => v
  | Throw _ => 0%float
  end.

(** An event whose contacts all belong to the target element. *)
Definition touch (id : Z) (x y : JS.number) : Touch :=
  {| identifier := id; pageX := x; pageY := y |}.
Arguments touch id%_Z x%_float y%_float.

Definition event (ts : list Touch) : TouchEvent :=
  {| touches := ts; targetTouches := ts |}.

(** The number of contacts on the target element. *)
Definition touchCount (e : TouchEvent) : Z :=
  Z.of_nat (length (targetTouches e)).

(** The contact count lies within [minimumTouchCount .. maximumTouchCount]. *)
Definition within_touch_range (r : PanRecognizer) (e : TouchEvent) : Prop :=
  (minTouchCount_ r <= touchCount e <= maxTouchCount_ r)%Z.

(** The displacement of the centroid an event brings about, as
    [touchesMoved] computes it. *)
Definition displacementX (r : PanRecognizer) (e : TouchEvent) : JS.number :=
  (fst (centroid (targetTouches e)) - pageX_ r)%float.

Definition displacementY (r : PanRecognizer) (e : TouchEvent) : JS.number :=
  (snd (centroid (targetTouches e)) - pageY_ r)%float.


(** The path length accumulated once the step of the event is added. *)
Definition accumulatedDistance (r : PanRecognizer) (e : TouchEvent)
  : JS.number :=
  let dx := displacementX r e in
  let dy := displacementY r e in
  (centroidDistance_ r + JS.Math_sqrt (dx * dx + dy * dy))%float.

(** The receiver once [touchesMoved] has stored the new centroid and added
    the length of the step to centroidDistance. *)
Definition moved (r : PanRecognizer) (e : TouchEvent) : PanRecognizer :=
  let c := centroid (targetTouches e) in
  set_centroidDistance_ (accumulatedDistance r e)
    (set_page_ (fst c) (snd c) r).

(** The receiver once a change of the contact set has been folded into the
    shift accumulator: the centroid is the new one, and centroidShift has
    lost the jump of the centroid. *)
Definition refolded (r : PanRecognizer) (e : TouchEvent) : PanRecognizer :=
  let c := centroid (targetTouches e) in
  set_centroidShiftY_ (centroidShiftY_ r - (snd c - pageY_ r))%float
    (set_centroidShiftX_ (centroidShiftX_ r - (fst c - pageX_ r))%float
       (set_page_ (fst c) (snd c) r)).

(** No operation rounds in the translation [page - start + shift] of one
    axis, neither before the centroid jumps from [page] to [page'] nor
    after the jump has been folded into the shift. *)
Definition no_rounding (page start shift page' : JS.number) : Prop :=
  JS.exact_sub page start /\
  JS.exact_add (page - start) shift /\
  JS.exact_sub page' page /\
  JS.exact_sub shift (page' - page) /\
  JS.exact_sub page' start /\
  JS.exact_add (page' - start) (shift - (page' - page)).
Arguments no_rounding (page start shift page')%_float.

(* ================================================================== *)
(** ** Touch sequences used as examples *)

Module Scenario.

(** A recognizer limited to one contact, which has followed a contact for
    3 units (still POSSIBLE), respectively 8 units (CHANGED). *)
Definition single_possible : PanRecognizer :=
  after (setMaximumTouchCount 1 ;;
         touchesBegan (event [touch 0 100 100]) ;;
         touchesMoved (event [touch 0 100 103]))
        new_PanRecognizer.

Definition single_changed : PanRecognizer :=
  after (setMaximumTouchCount 1 ;;
         touchesBegan (event [touch 0 100 100]) ;;
         touchesMoved (event [touch 0 100 108]))
        new_PanRecognizer.

Definition second_contact : TouchEvent :=
  event [touch 0 100 103; touch 1 200 200].

(** A contact lands at the origin, then travels 3 units. *)
Definition landed : PanRecognizer :=
  after (touchesBegan (event [touch 0 0 0])) new_PanRecognizer.

Definition travelled_3 : PanRecognizer :=
  after (touchesMoved (event [touch 0 0 3])) landed.

(** The scenario of the specification: one contact lands at (100,100)
    and moves to (100,108), then to (105,108). *)
Definition pan_landed : PanRecognizer :=
  after (touchesBegan (event [touch 0 100 100])) new_PanRecognizer.

Definition pan_first_move : TouchEvent := event [touch 0 100 108].

Definition pan_began : PanRecognizer :=
  after (touchesMoved pan_first_move) pan_landed.

Definition pan_second_move : TouchEvent := event [touch 0 105 108].

Definition pan_moved : PanRecognizer :=
  after (touchesMoved pan_second_move) pan_began.

(** A second contact joins the pan above; later the first one lifts. *)
Definition pan_second_contact : TouchEvent :=
  event [touch 0 105 108; touch 1 200 300].

Definition pan_two_contacts : PanRecognizer :=
  after (touchesBegan pan_second_contact) pan_moved.

Definition pan_first_lifted : TouchEvent := event [touch 1 200 300].

(** Two contacts pan from a centroid at (583,110) to one at (78.5,110);
    a third contact then lands at (4,110). *)
Definition two_moved : PanRecognizer :=
  after (touchesBegan (event [touch 0 580 100; touch 1 586 100]) ;;
         touchesMoved (event [touch 0 580 110; touch 1 586 110]) ;;
         touchesMoved (event [touch 0 72 110; touch 1 85 110]))
        new_PanRecognizer.

Definition third_contact : TouchEvent :=
  event [touch 0 72 110; touch 1 85 110; touch 2 4 110].

(** One contact lands at (-1e308,100), moves to (-1e308,110), where the
    gesture begins, and pans to (5e307,110); a second contact then lands at
    (1.2e308,110). *)
Definition far_moved : PanRecognizer :=
  after (touchesBegan (event [touch 0 (-1e308) 100]) ;;
         touchesMoved (event [touch 0 (-1e308) 110]) ;;
         touchesMoved (event [touch 0 5e307 110]))
        new_PanRecognizer.

Definition far_contact : TouchEvent :=
  event [touch 0 5e307 110; touch 1 1.2e308 110].

(** A first attempt travels 3 units and is given up; a second one starts
    elsewhere. *)
Definition given_up : PanRecognizer :=
  after (touchesBegan (event [touch 0 100 100]) ;;
         touchesMoved (event [touch 0 100 103]) ;;
         touchesEnded (event []))
        new_PanRecognizer.

Definition second_attempt : M unit :=
  touchesBegan (event [touch 1 200 200]) ;;
  touchesMoved (event [touch 1 200 204]).

End Scenario.
(* ================================================================== *)
(** ** Sequences of calls *)

(** The receiver once [reset] has run on it. *)
Definition cleared (r : PanRecognizer) : PanRecognizer :=
  set_state_ POSSIBLE
    (set_centroidDistance_ 0%float
       (set_centroidShiftX_ 0%float
          (set_centroidShiftY_ 0%float
             (set_centroidStartX_ 0%float
                (set_centroidStartY_ 0%float r))))).

(** The receiver once a gesture has begun on the step of an event. *)
Definition begun (r : PanRecognizer) (e : TouchEvent) : PanRecognizer :=
  set_state_ CHANGED
    (set_state_ BEGAN
       (set_centroidShiftX_ 0%float
          (set_centroidShiftY_ 0%float
             (set_centroidStartY_ (pageY_ (moved r e))
                (set_centroidStartX_ (pageX_ (moved r e)) (moved r e)))))).

(** A call made on the recognizer: by its client for the two setters, by
    the dispatch of touch events for the four others. *)
Inductive Action :=
  | SetMinimumTouchCount (value : JS.number)
  | SetMaximumTouchCount (value : JS.number)
  | TouchesBegan (e : TouchEvent)
  | TouchesMoved (e : TouchEvent)
  | TouchesEnded (e : TouchEvent)
  | TouchesCancelled (e : TouchEvent).
Arguments SetMinimumTouchCount value%_float.
Arguments SetMaximumTouchCount value%_float.

Definition dispatch (a : Action) : M unit :=
  match a with
  | SetMinimumTouchCount value => setMinimumTouchCount value
  | SetMaximumTouchCount value => setMaximumTouchCount value
  | TouchesBegan e => touchesBegan e
  | TouchesMoved e => touchesMoved e
  | TouchesEnded e => touchesEnded e
  | TouchesCancelled e => touchesCancelled e
  end.

Definition isTouchEvent (a : Action) : bool :=
  match a with
  | SetMinimumTouchCount _ | SetMaximumTouchCount _ => false
  | _ => true
  end.

(** The calls are made one after the other, each on the receiver the one
    before has left.  A failed assertion ends the call it occurs in, not
    the sequence. *)
Definition performAll (actions : list Action) (r : PanRecognizer)
  : PanRecognizer :=
  fold_left (fun r a => after (dispatch a) r) actions r.

(** The states the callback reads over such a sequence, oldest first. *)
Fixpoint traceAll (actions : list Action) (r : PanRecognizer) : list State :=
  match actions with
  | [] => []
  | a :: rest =>
      callbacks (dispatch a) r ++ traceAll rest (after (dispatch a) r)
  end.

(** A well-formed report of gestures: each one opens with BEGAN followed at
    once by CHANGED, goes on with any number of CHANGED and closes with
    ENDED or CANCELLED; outside a gesture only CANCELLED is reported.
    [recognizing] tells whether a gesture is open at the start. *)
Fixpoint lifecycle (recognizing : bool) (trace : list State) : bool :=
  match trace with
  | [] => true
  | s :: rest =>
      match s, recognizing with
      | BEGAN, false =>
          match rest with
          | CHANGED :: rest' => lifecycle true rest'
          | _ => false
          end
      | CHANGED, true => lifecycle true rest
      | ENDED, true => lifecycle false rest
      | CANCELLED, _ => lifecycle false rest
      | _, _ => false
      end
  end.

(** The touch counts a setter can store: positive 32-bit integers. *)
Definition validTouchCount (n : Z) : Prop := (1 <= n < 2 ^ 31)%Z.

(** What holds of a recognizer between two calls: touch counts a setter can
    store, the hysteresis of the constructor, a state that is POSSIBLE or
    CHANGED, and no start nor shift left over while POSSIBLE. *)
Definition wellFormed (r : PanRecognizer) : Prop :=
  validTouchCount (minTouchCount_ r) /\
  validTouchCount (maxTouchCount_ r) /\
  moveHysteresis_ r = 6%float /\
  (state_ r = POSSIBLE \/ state_ r = CHANGED) /\
  (state_ r = POSSIBLE ->
   centroidStartX_ r = 0%float /\ centroidStartY_ r = 0%float /\
   centroidShiftX_ r = 0%float /\ centroidShiftY_ r = 0%float).

(** A recognizer asked for at least five and at most two contacts. *)
Definition inverted : PanRecognizer :=
  after (setMinimumTouchCount 5 ;; setMaximumTouchCount 2) new_PanRecognizer.

(** Two contacts land and pan by 100 units, then the touches are
    cancelled. *)
Definition two_finger_pan : list Action :=
  [TouchesBegan (event [touch 0 100 100; touch 1 120 100]);
   TouchesMoved (event [touch 0 100 200; touch 1 120 200]);
   TouchesEnded (event [touch 1 120 200]);
   TouchesCancelled (event [])].

(* ================================================================== *)
(** ** Rounding of binary64 additions and subtractions *)

(** What the rounding of [m] keeps once [k] bits have been shifted out of
    it: the mantissa left, and in the round and sticky bits where the
    bits shifted out stand with respect to half a unit. *)
Definition shr_inv (m k : Z) (mrs : shr_record) : Prop :=
  (0 <= shr_m mrs /\
   0 <= m - shr_m mrs * 2 ^ k < 2 ^ k /\
   match shr_r mrs, shr_s mrs with
   | false, false => m - shr_m mrs * 2 ^ k = 0
   | false, true => 0 < 2 * (m - shr_m mrs * 2 ^ k) < 2 ^ k
   | true, false => 2 * (m - shr_m mrs * 2 ^ k) = 2 ^ k
   | true, true => 2 ^ k < 2 * (m - shr_m mrs * 2 ^ k)
   end)%Z.

(** The value of a finite number in units of [2^-1074], the least positive
    binary64 number: an integer. *)
Definition scaled (x : spec_float) : Z :=
  match x with
  | S754_finite s m e => cond_Zopp s (Z.pos m * 2 ^ (e + 1074))%Z
  | _ => 0%Z
  end.

Definition finite_or_zero (x : spec_float) : bool :=
  match x with
  | S754_zero _ | S754_finite _ _ _ => true
  | _ => false
  end.

Definition ulp_min : Q := Qpower 2 (-1074).

(** None of the six operations that compute the translation [page - start
    + shift] of one axis, before the centroid jumps from [page] to [page']
    and after the jump has been folded into the shift, overflows or yields
    NaN. *)
Definition steps_finite (page start shift page' : JS.number) : Prop :=
  JS.isFinite (page - start) = true /\
  JS.isFinite (page - start + shift) = true /\
  JS.isFinite (page' - page) = true /\
  JS.isFinite (shift - (page' - page)) = true /\
  JS.isFinite (page' - start) = true /\
  JS.isFinite (page' - start + (shift - (page' - page))) = true.
Arguments steps_finite (page start shift page')%_float.

(** The sum of the magnitudes of the results of these six operations. *)
Definition steps_magnitude (page start shift page' : JS.number) : Q :=
  (Qabs (JS.value (page - start))
   + Qabs (JS.value (page - start + shift))
   + Qabs (JS.value (page' - page))
   + Qabs (JS.value (shift - (page' - page)))
   + Qabs (JS.value (page' - start))
   + Qabs (JS.value (page' - start + (shift - (page' - page)))))%Q.
Arguments steps_magnitude (page start shift page')%_float.

(* ================================================================== *)
(** ** Proof support *)

(** Unfolds a method body down to the state it returns. *)
Ltac unfold_methods :=
  unfold outcome, after, callbacks, read in *;
  unfold run,
    touchesBegan, touchesMoved, touchesEnded, touchesCancelled,
    setMinimumTouchCount, setMaximumTouchCount,
    getTranslateX, getTranslateY, reset,
    Recognizer.reset, setState, getState, getPageX, getPageY,
    updateLocation, goog_asserts_assert, when,
    bind, get, modify, invokeCallback, throw, ret in *.

Arguments centroid : simpl never.
Arguments JS.Math_sqrt : simpl never.
Arguments JS.gt : simpl never.
Arguments JS.ToBoolean : simpl never.
Arguments JS.or : simpl never.
Arguments JS.ToInt32 : simpl never.

Ltac step_methods := unfold_methods; cbn in *.

Lemma State_eqb_eq (a b : State) : State_eqb a b = true <-> a = b.
Proof. destruct a, b; cbn; split; congruence. Qed.

Lemma State_eqb_neq (a b : State) : State_eqb a b = false <-> a <> b.
Proof. destruct a, b; cbn; split; congruence. Qed.

Lemma State_eqb_refl (a : State) : State_eqb a a = true.
Proof. now destruct a. Qed.

(* ================================================================== *)
(** ** Events outside the touch range *)

(** C5.  A [touchesMoved] whose contact count is strictly below
    [minimumTouchCount] or strictly above [maximumTouchCount] is ignored
    entirely: the method returns with the receiver as it was (state,
    tracked centroid, centroidStart, centroidShift and centroidDistance
    included) and the callback is not invoked. *)
Theorem touchesMoved_out_of_range_ignored (r : PanRecognizer) (e : TouchEvent) :
  (touchCount e < minTouchCount_ r \/ maxTouchCount_ r < touchCount e)%Z ->
  run (touchesMoved e) r = (Normal tt, {| this := r; fired := [] |}).
Proof.
  intros H. unfold touchCount in H. step_methods.
  replace ((Z.of_nat (length (targetTouches e)) <? minTouchCount_ r)%Z
           || (maxTouchCount_ r <? Z.of_nat (length (targetTouches e)))%Z)
    with true; [reflexivity|].
  symmetry. apply orb_true_iff.
  destruct H; [left | right]; now apply Z.ltb_lt.
Qed.

Lemma touchesMoved_out_of_range_ignored_witness :
  run (touchesMoved Scenario.second_contact) Scenario.single_changed
  = (Normal tt, {| this := Scenario.single_changed; fired := [] |}).
Proof.
  apply touchesMoved_out_of_range_ignored.
  right. vm_compute. reflexivity.
Defined.

(* ================================================================== *)
(** ** Cancellation *)

(** C7.  [touchesCancelled], whatever the state of the recognizer, moves it
    to CANCELLED (the callback is invoked once and reads CANCELLED) and then
    resets it: centroidStart, centroidShift and centroidDistance are zero
    afterwards, and the recognizer is back in POSSIBLE. *)
Theorem touchesCancelled_cancels_and_resets
  (r : PanRecognizer) (e : TouchEvent) :
  let r' := after (touchesCancelled e) r in
  outcome (touchesCancelled e) r = Normal tt /\
  callbacks (touchesCancelled e) r = [CANCELLED] /\
  centroidStartX_ r' = 0%float /\ centroidStartY_ r' = 0%float /\
  centroidShiftX_ r' = 0%float /\ centroidShiftY_ r' = 0%float /\
  centroidDistance_ r' = 0%float /\
  state_ r' = POSSIBLE.
Proof. step_methods. repeat split. Qed.

(* ================================================================== *)
(** ** Too many contacts *)

(** C4, as stated, fails.  A recognizer limited to one contact has tracked
    a contact over 3 units, short of the hysteresis, and is still POSSIBLE;
    a second contact lands.  The count (2) exceeds the maximum (1), yet no
    transition to ENDED takes place and centroidDistance keeps its 3. *)
Lemma touchesBegan_over_maximum_counterexample :
  (maxTouchCount_ Scenario.single_possible < touchCount Scenario.second_contact)%Z /\
  state_ Scenario.single_possible = POSSIBLE /\
  callbacks (touchesBegan Scenario.second_contact) Scenario.single_possible = [] /\
  state_ (after (touchesBegan Scenario.second_contact) Scenario.single_possible)
    = POSSIBLE /\
  centroidDistance_ (after (touchesBegan Scenario.second_contact) Scenario.single_possible)
    = 3%float.
Proof. vm_compute. repeat split. Qed.

(** C4, amended.  When a [touchesBegan] brings the contact count above
    [maximumTouchCount] and the recognizer is CHANGED, it moves to ENDED
    (one callback, reading ENDED) and is reset: centroidStart, centroidShift
    and centroidDistance are zero and the state is POSSIBLE again.  In any
    other state the event only updates the tracked centroid: no transition,
    no callback, accumulators untouched. *)
Theorem touchesBegan_over_maximum (r : PanRecognizer) (e : TouchEvent) :
  (maxTouchCount_ r < touchCount e)%Z ->
  let r' := after (touchesBegan e) r in
  (state_ r = CHANGED ->
     callbacks (touchesBegan e) r = [ENDED] /\
     centroidStartX_ r' = 0%float /\ centroidStartY_ r' = 0%float /\
     centroidShiftX_ r' = 0%float /\ centroidShiftY_ r' = 0%float /\
     centroidDistance_ r' = 0%float /\
     state_ r' = POSSIBLE) /\
  (state_ r <> CHANGED ->
     callbacks (touchesBegan e) r = [] /\
     r' = set_page_ (fst (centroid (targetTouches e)))
                    (snd (centroid (targetTouches e))) r).
Proof.
  intros Hmax. unfold touchCount in Hmax. apply Z.ltb_lt in Hmax.
  split; intros Hs.
  - step_methods. rewrite Hs. cbn. rewrite Hmax. cbn. repeat split.
  - apply State_eqb_neq in Hs. step_methods. rewrite Hs. cbn. split; reflexivity.
Qed.

Lemma touchesBegan_over_maximum_witness :
  state_ Scenario.single_changed = CHANGED /\
  callbacks (touchesBegan Scenario.second_contact) Scenario.single_changed = [ENDED] /\
  centroidDistance_ (after (touchesBegan Scenario.second_contact) Scenario.single_changed)
    = 0%float /\
  callbacks (touchesBegan Scenario.second_contact) Scenario.single_possible = [].
Proof.
  assert (Hc : (maxTouchCount_ Scenario.single_changed
                < touchCount Scenario.second_contact)%Z) by (vm_compute; reflexivity).
  assert (Hb : (maxTouchCount_ Scenario.single_possible
                < touchCount Scenario.second_contact)%Z) by (vm_compute; reflexivity).
  assert (Sc : state_ Scenario.single_changed = CHANGED) by (vm_compute; reflexivity).
  assert (Sb : state_ Scenario.single_possible <> CHANGED) by (vm_compute; discriminate).
  pose proof (proj1 (touchesBegan_over_maximum _ _ Hc) Sc) as Kc.
  pose proof (proj2 (touchesBegan_over_maximum _ _ Hb) Sb) as Kb.
  split; [exact Sc | split; [apply Kc | split; [apply Kc | apply Kb]]].
Defined.

(* ================================================================== *)
(** ** The touch-count setters *)

Arguments JS.bitor : simpl never.

Lemma ToInt32_zero : JS.ToInt32 0%float = 0%Z.
Proof. vm_compute. reflexivity. Qed.

Lemma ToInt32_two : JS.ToInt32 2%float = 2%Z.
Proof. vm_compute. reflexivity. Qed.

(** [value |= 0] is [ToInt32 value]. *)
Lemma bitor_zero (v : JS.number) : JS.bitor v 0%float = JS.ToInt32 v.
Proof. unfold JS.bitor. rewrite ToInt32_zero. apply Z.lor_0_r. Qed.

(** Within the signed 32-bit range [ToInt32] is the truncation. *)
Lemma ToInt32_truncate (v : JS.number) :
  (- 2 ^ 31 <= JS.truncate v < 2 ^ 31)%Z -> JS.ToInt32 v = JS.truncate v.
Proof.
  unfold JS.ToInt32. generalize (JS.truncate v). intros t.
  change (2 ^ 31)%Z with 2147483648%Z. change (2 ^ 32)%Z with 4294967296%Z.
  intros Ht. cbv zeta.
  destruct (Z_lt_le_dec t 0) as [Hneg | Hpos].
  - replace (t mod 4294967296)%Z with (t + 4294967296)%Z.
    + destruct (Z.leb_spec 2147483648 (t + 4294967296)); lia.
    + symmetry. rewrite <- (Z.mod_add t 1 4294967296) by lia.
      apply Z.mod_small. lia.
  - rewrite Z.mod_small by lia.
    destruct (Z.leb_spec 2147483648 t); lia.
Qed.

Lemma setMinimumTouchCount_run (r : PanRecognizer) (v : JS.number) :
  run (setMinimumTouchCount v) r
  = if State_eqb (state_ r) POSSIBLE && (1 <=? JS.ToInt32 v)%Z
    then (Normal tt,
          {| this := set_minTouchCount_ (JS.ToInt32 v) r; fired := [] |})
    else (Throw AssertionError, {| this := r; fired := [] |}).
Proof.
  step_methods. rewrite bitor_zero.
  destruct (State_eqb (state_ r) POSSIBLE); cbn; [|reflexivity].
  destruct (1 <=? JS.ToInt32 v)%Z; reflexivity.
Qed.

Lemma setMaximumTouchCount_run (r : PanRecognizer) (v : JS.number) :
  run (setMaximumTouchCount v) r
  = if State_eqb (state_ r) POSSIBLE && (1 <=? JS.ToInt32 v)%Z
    then (Normal tt,
          {| this := set_maxTouchCount_ (JS.ToInt32 v) r; fired := [] |})
    else (Throw AssertionError, {| this := r; fired := [] |}).
Proof.
  step_methods. rewrite bitor_zero.
  destruct (State_eqb (state_ r) POSSIBLE); cbn; [|reflexivity].
  destruct (1 <=? JS.ToInt32 v)%Z; reflexivity.
Qed.

Lemma setter_guard (r : PanRecognizer) (n : Z) :
  State_eqb (state_ r) POSSIBLE && (1 <=? n)%Z = true
  <-> state_ r = POSSIBLE /\ (1 <= n)%Z.
Proof. now rewrite andb_true_iff, State_eqb_eq, Z.leb_le. Qed.

(** [value |= 0] is the one 32-bit integer that differs from the truncation
    by a multiple of [2^32]. *)
Lemma ToInt32_wraps (v : JS.number) :
  (- 2 ^ 31 <= JS.ToInt32 v < 2 ^ 31)%Z /\
  ((JS.ToInt32 v - JS.truncate v) mod 2 ^ 32 = 0)%Z.
Proof.
  unfold JS.ToInt32. generalize (JS.truncate v). intros t. cbv zeta.
  change (2 ^ 31)%Z with 2147483648%Z. change (2 ^ 32)%Z with 4294967296%Z.
  pose proof (Z.mod_pos_bound t 4294967296 eq_refl) as B.
  pose proof (Z.div_mod t 4294967296 ltac:(discriminate)) as D.
  destruct (Z.leb_spec 2147483648 (t mod 4294967296)); (split; [lia|]).
  - replace (t mod 4294967296 - 4294967296 - t)%Z
      with ((- (t / 4294967296) - 1) * 4294967296)%Z by lia.
    apply Z.mod_mul. discriminate.
  - replace (t mod 4294967296 - t)%Z
      with ((- (t / 4294967296)) * 4294967296)%Z by lia.
    apply Z.mod_mul. discriminate.
Qed.

(** C8, as stated, fails: the integer the setters test and store is not
    the truncation of the argument but [value |= 0], which wraps modulo
    [2^32].  In POSSIBLE, [2147483648] truncates to itself, at least 1, yet
    the setter throws; [-4294967295] is below 1, yet the setter returns
    normally and stores 1. *)
Lemma setTouchCount_contract_counterexample :
  state_ new_PanRecognizer = POSSIBLE /\
  JS.truncate 2147483648 = 2147483648%Z /\
  run (setMinimumTouchCount 2147483648) new_PanRecognizer
    = (Throw AssertionError, {| this := new_PanRecognizer; fired := [] |}) /\
  JS.truncate (-4294967295) = (-4294967295)%Z /\
  outcome (setMaximumTouchCount (-4294967295)) new_PanRecognizer = Normal tt /\
  maxTouchCount_ (after (setMaximumTouchCount (-4294967295)) new_PanRecognizer)
    = 1%Z.
Proof. vm_compute. repeat split. Qed.

(** C8, amended.  Each of [setMinimumTouchCount] and [setMaximumTouchCount]
    returns normally exactly when the recognizer is POSSIBLE and the integer
    [value |= 0] makes of the argument is at least 1: that integer is the
    one in [-2^31 .. 2^31 - 1] that differs from the truncation of the
    argument by a multiple of [2^32], hence the truncation itself whenever
    it fits 32 bits.  The parameter then holds that integer, every other
    field is as before and no callback is invoked.  In every other case the
    call throws an assertion error and the recognizer, the parameter
    included, is as before. *)
Theorem setTouchCount_contract (r : PanRecognizer) (v : JS.number) :
  let n := JS.ToInt32 v in
  let allowed := state_ r = POSSIBLE /\ (1 <= n)%Z in
  ((- 2 ^ 31 <= n < 2 ^ 31)%Z /\ ((n - JS.truncate v) mod 2 ^ 32 = 0)%Z /\
   ((- 2 ^ 31 <= JS.truncate v < 2 ^ 31)%Z -> n = JS.truncate v)) /\
  (outcome (setMinimumTouchCount v) r = Normal tt <-> allowed) /\
  (outcome (setMaximumTouchCount v) r = Normal tt <-> allowed) /\
  (allowed ->
     run (setMinimumTouchCount v) r
     = (Normal tt,
        {| this :=
             {| state_ := state_ r; pageX_ := pageX_ r; pageY_ := pageY_ r;
                minTouchCount_ := n; maxTouchCount_ := maxTouchCount_ r;
                moveHysteresis_ := moveHysteresis_ r;
                centroidStartX_ := centroidStartX_ r;
                centroidStartY_ := centroidStartY_ r;
                centroidShiftX_ := centroidShiftX_ r;
                centroidShiftY_ := centroidShiftY_ r;
                centroidDistance_ := centroidDistance_ r |};
           fired := [] |}) /\
     run (setMaximumTouchCount v) r
     = (Normal tt,
        {| this :=
             {| state_ := state_ r; pageX_ := pageX_ r; pageY_ := pageY_ r;
                minTouchCount_ := minTouchCount_ r; maxTouchCount_ := n;
                moveHysteresis_ := moveHysteresis_ r;
                centroidStartX_ := centroidStartX_ r;
                centroidStartY_ := centroidStartY_ r;
                centroidShiftX_ := centroidShiftX_ r;
                centroidShiftY_ := centroidShiftY_ r;
                centroidDistance_ := centroidDistance_ r |};
           fired := [] |})) /\
  (~ allowed ->
     run (setMinimumTouchCount v) r
     = (Throw AssertionError, {| this := r; fired := [] |}) /\
     run (setMaximumTouchCount v) r
     = (Throw AssertionError, {| this := r; fired := [] |})).
Proof.
  intros n allowed.
  split.
  { destruct (ToInt32_wraps v) as [R W].
    split; [exact R | split; [exact W | apply ToInt32_truncate]]. }
  unfold outcome.
  rewrite setMinimumTouchCount_run, setMaximumTouchCount_run.
  fold n. pose proof (setter_guard r n) as G. fold allowed in G.
  destruct (State_eqb (state_ r) POSSIBLE && (1 <=? n)%Z); cbn [fst].
  - assert (A : allowed) by now apply G.
    split; [split; [intros _; exact A | reflexivity]|].
    split; [split; [intros _; exact A | reflexivity]|].
    split; [intros _; split; reflexivity | intros N; contradiction].
  - assert (A : ~ allowed) by (intros A; apply G in A; discriminate).
    split; [split; [discriminate | intros N; contradiction]|].
    split; [split; [discriminate | intros N; contradiction]|].
    split; [intros N; contradiction | intros _; split; reflexivity].
Qed.

Lemma setTouchCount_contract_witness :
  minTouchCount_ (after (setMinimumTouchCount 2) new_PanRecognizer) = 2%Z /\
  maxTouchCount_ (after (setMaximumTouchCount 2) new_PanRecognizer) = 2%Z /\
  run (setMinimumTouchCount 0) new_PanRecognizer
    = (Throw AssertionError, {| this := new_PanRecognizer; fired := [] |}) /\
  run (setMaximumTouchCount 3) Scenario.single_changed
    = (Throw AssertionError,
       {| this := Scenario.single_changed; fired := [] |}) /\
  run (setMinimumTouchCount 2147483648) new_PanRecognizer
    = (Throw AssertionError, {| this := new_PanRecognizer; fired := [] |}).
Proof.
  assert (A2 : state_ new_PanRecognizer = POSSIBLE /\ (1 <= JS.ToInt32 2)%Z)
    by (vm_compute; split; [reflexivity | discriminate]).
  assert (A0 : ~ (state_ new_PanRecognizer = POSSIBLE /\ (1 <= JS.ToInt32 0)%Z))
    by (vm_compute; intros [_ H]; apply H; reflexivity).
  assert (A3 : ~ (state_ Scenario.single_changed = POSSIBLE
                  /\ (1 <= JS.ToInt32 3)%Z))
    by (vm_compute; intros [H _]; discriminate H).
  assert (A31 : ~ (state_ new_PanRecognizer = POSSIBLE
                   /\ (1 <= JS.ToInt32 2147483648)%Z))
    by (vm_compute; intros [_ H]; apply H; reflexivity).
  pose proof (setTouchCount_contract new_PanRecognizer 2%float) as K2.
  pose proof (setTouchCount_contract new_PanRecognizer 0%float) as K0.
  pose proof (setTouchCount_contract Scenario.single_changed 3%float) as K3.
  pose proof (setTouchCount_contract new_PanRecognizer 2147483648%float) as K31.
  cbv zeta in K2, K0, K3, K31.
  destruct K2 as (_ & _ & _ & K2 & _). destruct (K2 A2) as [K2a K2b].
  destruct K0 as (_ & _ & _ & _ & K0). destruct (K0 A0) as [K0a _].
  destruct K3 as (_ & _ & _ & _ & K3). destruct (K3 A3) as [_ K3b].
  destruct K31 as (_ & _ & _ & _ & K31). destruct (K31 A31) as [K31a _].
  unfold after. rewrite K2a, K2b. rewrite ToInt32_two.
  repeat split; assumption.
Defined.




(* ================================================================== *)
(** ** [touchesMoved] within the touch range *)

Lemma touchesMoved_run (r : PanRecognizer) (e : TouchEvent) :
  within_touch_range r e ->
  run (touchesMoved e) r
  = if State_eqb (state_ r) POSSIBLE
       && JS.gt (centroidDistance_ (moved r e)) (moveHysteresis_ r)
    then (Normal tt,
          {| this :=
               set_state_ CHANGED
                 (set_state_ BEGAN
                    (set_centroidShiftX_ 0%float
                       (set_centroidShiftY_ 0%float
                          (set_centroidStartY_ (pageY_ (moved r e))
                             (set_centroidStartX_ (pageX_ (moved r e))
                                (moved r e))))));
             fired := [BEGAN; CHANGED] |})
    else if JS.ToBoolean (JS.or (displacementX r e) (displacementY r e))
            && State_eqb (state_ r) CHANGED
    then (Normal tt,
          {| this := set_state_ CHANGED (moved r e); fired := [CHANGED] |})
    else (Normal tt, {| this := moved r e; fired := [] |}).
Proof.
  intros [Hmin Hmax]. unfold touchCount in Hmin, Hmax.
  apply Z.ltb_ge in Hmin. apply Z.ltb_ge in Hmax.
  unfold moved, accumulatedDistance, displacementX, displacementY.
  step_methods. rewrite Hmin, Hmax. cbn.
  destruct (State_eqb (state_ r) POSSIBLE
            && JS.gt _ (moveHysteresis_ r)); cbn; [reflexivity|].
  destruct (JS.ToBoolean _ && State_eqb (state_ r) CHANGED); reflexivity.
Qed.

(** The receiver once a gesture has begun on the step of an event. *)
Lemma touchesMoved_POSSIBLE_run (r : PanRecognizer) (e : TouchEvent) :
  state_ r = POSSIBLE ->
  within_touch_range r e ->
  run (touchesMoved e) r
  = if JS.gt (accumulatedDistance r e) (moveHysteresis_ r)
    then (Normal tt,
          {| this :=
               set_state_ CHANGED
                 (set_state_ BEGAN
                    (set_centroidShiftX_ 0%float
                       (set_centroidShiftY_ 0%float
                          (set_centroidStartY_ (pageY_ (moved r e))
                             (set_centroidStartX_ (pageX_ (moved r e))
                                (moved r e))))));
             fired := [BEGAN; CHANGED] |})
    else (Normal tt, {| this := moved r e; fired := [] |}).
Proof.
  intros Hs Hrange. rewrite (touchesMoved_run r e Hrange), Hs.
  change (centroidDistance_ (moved r e)) with (accumulatedDistance r e).
  cbn [State_eqb andb]. rewrite andb_false_r. reflexivity.
Qed.

(** C2.  A [touchesMoved] within the touch range, received in POSSIBLE, adds
    the length of the step to centroidDistance, and BEGAN fires exactly when
    that accumulated length is strictly greater than moveHysteresis.  When
    it fires, the callback is invoked twice in the dispatch, for BEGAN and
    then for CHANGED, centroidStart is the current centroid and
    centroidShift is zero; otherwise nothing fires and the state stays
    POSSIBLE.  With a hysteresis of 6, an accumulated length of exactly 6
    does not begin the gesture and one of 6.01 does. *)
Theorem touchesMoved_begins_past_hysteresis
  (r : PanRecognizer) (e : TouchEvent) :
  state_ r = POSSIBLE ->
  within_touch_range r e ->
  let r' := after (touchesMoved e) r in
  let c := centroid (targetTouches e) in
  let fires := JS.gt (accumulatedDistance r e) (moveHysteresis_ r) in
  centroidDistance_ r' = accumulatedDistance r e /\
  (In BEGAN (callbacks (touchesMoved e) r) <-> fires = true) /\
  (fires = true ->
     callbacks (touchesMoved e) r = [BEGAN; CHANGED] /\
     state_ r' = CHANGED /\
     pageX_ r' = fst c /\ pageY_ r' = snd c /\
     centroidStartX_ r' = fst c /\ centroidStartY_ r' = snd c /\
     centroidShiftX_ r' = 0%float /\ centroidShiftY_ r' = 0%float) /\
  (fires = false ->
     callbacks (touchesMoved e) r = [] /\ state_ r' = POSSIBLE) /\
  (moveHysteresis_ r = 6%float ->
     (accumulatedDistance r e = 6%float ->
        callbacks (touchesMoved e) r = []) /\
     (accumulatedDistance r e = 6.01%float ->
        callbacks (touchesMoved e) r = [BEGAN; CHANGED])).
Proof.
  intros Hs Hrange r' c fires. subst r'. unfold after, callbacks.
  rewrite (touchesMoved_POSSIBLE_run r e Hs Hrange). fold fires.
  split; [|split; [|split; [|split]]].
  - destruct fires; reflexivity.
  - destruct fires; cbn.
    + split; [reflexivity | intros _; left; reflexivity].
    + split; [contradiction | discriminate].
  - intros Hf. rewrite Hf. cbn. repeat split.
  - intros Hf. rewrite Hf. cbn. split; [reflexivity | exact Hs].
  - intros Hh. unfold fires. rewrite Hh. split; intros Hd; rewrite Hd.
    + reflexivity.
    + reflexivity.
Qed.

Lemma touchesMoved_begins_past_hysteresis_witness :
  accumulatedDistance Scenario.travelled_3 (event [touch 0 0 6]) = 6%float /\
  callbacks (touchesMoved (event [touch 0 0 6])) Scenario.travelled_3 = [] /\
  accumulatedDistance Scenario.travelled_3 (event [touch 0 0 6.01])
    = 6.01%float /\
  callbacks (touchesMoved (event [touch 0 0 6.01])) Scenario.travelled_3
    = [BEGAN; CHANGED].
Proof.
  assert (S3 : state_ Scenario.travelled_3 = POSSIBLE) by reflexivity.
  assert (H3 : moveHysteresis_ Scenario.travelled_3 = 6%float) by reflexivity.
  assert (R6 : within_touch_range Scenario.travelled_3 (event [touch 0 0 6]))
    by (vm_compute; split; discriminate).
  assert (R601 :
            within_touch_range Scenario.travelled_3 (event [touch 0 0 6.01]))
    by (vm_compute; split; discriminate).
  assert (D6 : accumulatedDistance Scenario.travelled_3 (event [touch 0 0 6])
               = 6%float) by (vm_compute; reflexivity).
  assert (D601 :
            accumulatedDistance Scenario.travelled_3 (event [touch 0 0 6.01])
            = 6.01%float) by (vm_compute; reflexivity).
  pose proof (touchesMoved_begins_past_hysteresis _ _ S3 R6) as K6.
  pose proof (touchesMoved_begins_past_hysteresis _ _ S3 R601) as K601.
  cbv zeta in K6, K601.
  destruct K6 as (_ & _ & _ & _ & K6). destruct (K6 H3) as [K6a _].
  destruct K601 as (_ & _ & _ & _ & K601). destruct (K601 H3) as [_ K601b].
  split; [exact D6 | split; [exact (K6a D6) | split; [exact D601|]]].
  exact (K601b D601).
Defined.

(* ================================================================== *)
(** ** Updates of a recognized gesture *)

Lemma touchesMoved_CHANGED_run (r : PanRecognizer) (e : TouchEvent) :
  state_ r = CHANGED ->
  within_touch_range r e ->
  run (touchesMoved e) r
  = if JS.ToBoolean (JS.or (displacementX r e) (displacementY r e))
    then (Normal tt,
          {| this := set_state_ CHANGED (moved r e); fired := [CHANGED] |})
    else (Normal tt, {| this := moved r e; fired := [] |}).
Proof.
  intros Hs Hrange. rewrite (touchesMoved_run r e Hrange), Hs.
  cbn [State_eqb andb]. rewrite andb_true_r. reflexivity.
Qed.

(** [dx || dy] is truthy when one of the two is. *)
Lemma ToBoolean_or (a b : JS.number) :
  JS.ToBoolean (JS.or a b) = JS.ToBoolean a || JS.ToBoolean b.
Proof. unfold JS.or. destruct (JS.ToBoolean a) eqn:Ha; [exact Ha | reflexivity]. Qed.

(** A number other than NaN is truthy when it is not a zero. *)
Lemma ToBoolean_number (x : JS.number) :
  PrimFloat.is_nan x = false ->
  JS.ToBoolean x = negb (PrimFloat.is_zero x).
Proof. intros Hx. unfold JS.ToBoolean. now rewrite Hx, orb_false_r. Qed.

(** Subtracting a finite number from itself gives a zero. *)
Lemma sub_diag_is_zero (x : JS.number) :
  JS.isFinite x = true -> PrimFloat.is_zero (x - x)%float = true.
Proof.
  intros Hx. unfold PrimFloat.is_zero. rewrite FloatAxioms.eqb_spec, FloatAxioms.sub_spec.
  unfold JS.isFinite in Hx.
  destruct (Prim2SF x) as [s | s | | s m e]; try discriminate.
  - destruct s; reflexivity.
  - unfold SF64sub, SFsub. rewrite Z.sub_diag. reflexivity.
Qed.

(** The difference of two finite numbers is a number: it may overflow to
    an infinity, it is never NaN. *)
Lemma shr_1_nonneg (mrs : shr_record) :
  (0 <= shr_m mrs)%Z -> (0 <= shr_m (shr_1 mrs))%Z.
Proof.
  destruct mrs as [m r s]. destruct m as [|p|p]; cbn; intros H.
  - lia.
  - destruct p; cbn; lia.
  - lia.
Qed.

Lemma iter_shr_1_nonneg (p : positive) (mrs : shr_record) :
  (0 <= shr_m mrs)%Z -> (0 <= shr_m (iter_pos shr_1 p mrs))%Z.
Proof.
  revert mrs. induction p as [p IH | p IH |]; intros mrs H; cbn.
  - apply IH, IH, shr_1_nonneg, H.
  - apply IH, IH, H.
  - apply shr_1_nonneg, H.
Qed.

Lemma shr_fexp_nonneg (m e : Z) (l : location) :
  (0 <= m)%Z -> (0 <= shr_m (fst (shr_fexp prec emax m e l)))%Z.
Proof.
  intros H. unfold shr_fexp, shr.
  assert (H0 : (0 <= shr_m (shr_record_of_loc m l))%Z).
  { destruct l as [|[| |]]; exact H. }
  destruct (fexp prec emax (Zdigits2 m + e) - e)%Z; cbn [fst]; auto.
  now apply iter_shr_1_nonneg.
Qed.

Lemma round_nearest_even_nonneg (m : Z) (l : location) :
  (0 <= m)%Z -> (0 <= round_nearest_even m l)%Z.
Proof.
  intros H. unfold round_nearest_even.
  destruct l as [|[| |]]; try destruct (Z.even m); lia.
Qed.

Lemma binary_round_aux_number (s : bool) (m e : Z) (l : location) :
  (0 <= m)%Z -> binary_round_aux prec emax s m e l <> S754_nan.
Proof.
  intros H. unfold binary_round_aux.
  pose proof (shr_fexp_nonneg m e l H) as H1.
  destruct (shr_fexp prec emax m e l) as [mrs' e']. cbn [fst] in H1.
  pose proof (shr_fexp_nonneg _ e' loc_Exact
                (round_nearest_even_nonneg _ (loc_of_shr_record mrs') H1)) as H2.
  destruct (shr_fexp prec emax _ e' loc_Exact) as [mrs'' e'']. cbn [fst] in H2.
  destruct (shr_m mrs'') as [|p|p]; try discriminate.
  - destruct (e'' <=? emax - prec)%Z; discriminate.
  - lia.
Qed.

Lemma binary_normalize_number (m e : Z) (szero : bool) :
  binary_normalize prec emax m e szero <> S754_nan.
Proof.
  unfold binary_normalize, binary_round.
  destruct m as [|p|p]; try discriminate.
  - destruct (shl_align p e _) as [mz ez]. now apply binary_round_aux_number.
  - destruct (shl_align p e _) as [mz ez]. now apply binary_round_aux_number.
Qed.

Lemma SFeqb_refl (x : spec_float) : x <> S754_nan -> SFeqb x x = true.
Proof.
  intros H. unfold SFeqb, SFcompare.
  destruct x as [s | s | | s m e]; try (now destruct s); try contradiction.
  destruct s; rewrite Z.compare_refl, Pos.compare_cont_refl; reflexivity.
Qed.

Lemma finite_sub_is_number (a b : JS.number) :
  JS.isFinite a = true -> JS.isFinite b = true ->
  PrimFloat.is_nan (a - b)%float = false.
Proof.
  intros Ha Hb. unfold PrimFloat.is_nan.
  rewrite FloatAxioms.eqb_spec, FloatAxioms.sub_spec.
  rewrite SFeqb_refl; [reflexivity|].
  unfold JS.isFinite in Ha, Hb. unfold SF64sub, SFsub.
  destruct (Prim2SF a) as [sa | sa | | sa ma ea]; try discriminate;
    destruct (Prim2SF b) as [sb | sb | | sb mb eb]; try discriminate.
  - destruct sa, sb; discriminate.
  - apply binary_normalize_number.
Qed.

(** C6.  In CHANGED, a [touchesMoved] within the touch range keeps the
    state CHANGED and fires CHANGED again, invoking the callback once,
    exactly when [dx || dy] is truthy for the displacement [(dx, dy)] of the
    centroid.  When the displacement is a pair of numbers (neither is NaN,
    which [finite_sub_is_number] grants between finite centroids), that is
    exactly when it is not zero.  A zero displacement fires nothing; in
    particular an event whose centroid is the tracked one, at a finite
    position, fires nothing. *)
Theorem touchesMoved_refires_on_displacement
  (r : PanRecognizer) (e : TouchEvent) :
  state_ r = CHANGED ->
  within_touch_range r e ->
  let dx := displacementX r e in
  let dy := displacementY r e in
  state_ (after (touchesMoved e) r) = CHANGED /\
  (callbacks (touchesMoved e) r = [CHANGED]
   <-> JS.ToBoolean dx = true \/ JS.ToBoolean dy = true) /\
  (PrimFloat.is_nan dx = false -> PrimFloat.is_nan dy = false ->
   (callbacks (touchesMoved e) r = [CHANGED]
    <-> PrimFloat.is_zero dx = false \/ PrimFloat.is_zero dy = false)) /\
  (PrimFloat.is_zero dx = true -> PrimFloat.is_zero dy = true ->
   callbacks (touchesMoved e) r = []) /\
  (centroid (targetTouches e) = (pageX_ r, pageY_ r) ->
   JS.isFinite (pageX_ r) = true -> JS.isFinite (pageY_ r) = true ->
   callbacks (touchesMoved e) r = []).
Proof.
  intros Hs Hrange dx dy.
  assert (Hrun : callbacks (touchesMoved e) r
                 = if JS.ToBoolean dx || JS.ToBoolean dy then [CHANGED] else []).
  { unfold callbacks.
    rewrite (touchesMoved_CHANGED_run r e Hs Hrange), ToBoolean_or.
    fold dx dy. destruct (JS.ToBoolean dx || JS.ToBoolean dy); reflexivity. }
  assert (Hzero : PrimFloat.is_zero dx = true -> PrimFloat.is_zero dy = true ->
                  callbacks (touchesMoved e) r = []).
  { intros Zx Zy. rewrite Hrun. unfold JS.ToBoolean. rewrite Zx, Zy.
    reflexivity. }
  split; [|split; [|split; [|split]]].
  - unfold after. rewrite (touchesMoved_CHANGED_run r e Hs Hrange).
    destruct (JS.ToBoolean (JS.or _ _)); [reflexivity | exact Hs].
  - rewrite Hrun, <- orb_true_iff.
    destruct (JS.ToBoolean dx || JS.ToBoolean dy); split; congruence.
  - intros Hdx Hdy. rewrite Hrun.
    rewrite (ToBoolean_number dx Hdx), (ToBoolean_number dy Hdy).
    destruct (PrimFloat.is_zero dx), (PrimFloat.is_zero dy); cbn;
      split; auto; try discriminate; intros [H | H]; discriminate.
  - exact Hzero.
  - intros Hc Fx Fy. apply Hzero.
    + unfold dx, displacementX. rewrite Hc. cbn [fst].
      now apply sub_diag_is_zero.
    + unfold dy, displacementY. rewrite Hc. cbn [snd].
      now apply sub_diag_is_zero.
Qed.

Lemma touchesMoved_refires_on_displacement_witness :
  callbacks (touchesMoved Scenario.pan_second_move) Scenario.pan_began
    = [CHANGED] /\
  callbacks (touchesMoved Scenario.pan_first_move) Scenario.pan_began = [].
Proof.
  assert (Sc : state_ Scenario.pan_began = CHANGED)
    by (vm_compute; reflexivity).
  assert (R2 : within_touch_range Scenario.pan_began Scenario.pan_second_move)
    by (vm_compute; split; discriminate).
  assert (R1 : within_touch_range Scenario.pan_began Scenario.pan_first_move)
    by (vm_compute; split; discriminate).
  assert (X2 : PrimFloat.is_nan
                 (displacementX Scenario.pan_began Scenario.pan_second_move)
               = false)
    by (apply finite_sub_is_number; vm_compute; reflexivity).
  assert (Y2 : PrimFloat.is_nan
                 (displacementY Scenario.pan_began Scenario.pan_second_move)
               = false)
    by (apply finite_sub_is_number; vm_compute; reflexivity).
  assert (Z2 : PrimFloat.is_zero
                 (displacementX Scenario.pan_began Scenario.pan_second_move)
               = false)
    by (vm_compute; reflexivity).
  assert (C1 : centroid (targetTouches Scenario.pan_first_move)
               = (pageX_ Scenario.pan_began, pageY_ Scenario.pan_began))
    by (vm_compute; reflexivity).
  assert (F1 : JS.isFinite (pageX_ Scenario.pan_began) = true)
    by (vm_compute; reflexivity).
  assert (G1 : JS.isFinite (pageY_ Scenario.pan_began) = true)
    by (vm_compute; reflexivity).
  destruct (touchesMoved_refires_on_displacement _ _ Sc R2)
    as (_ & _ & K2 & _).
  destruct (touchesMoved_refires_on_displacement _ _ Sc R1)
    as (_ & _ & _ & _ & K1).
  split; [apply (K2 X2 Y2); left; exact Z2 | exact (K1 C1 F1 G1)].
Defined.

(* ================================================================== *)
(** ** The scenario of the specification *)

(** C1, as stated, fails: the gesture begins on the move to (100,108) and
    centroidStart is snapped to that very point, so the vertical translation
    is 0 after the first move and after the second one, not 8. *)
Lemma pan_scenario_counterexample :
  callbacks (touchesMoved Scenario.pan_first_move) Scenario.pan_landed
    = [BEGAN; CHANGED] /\
  read getTranslateY Scenario.pan_began = 0%float /\
  read getTranslateY Scenario.pan_began <> 8%float /\
  read getTranslateY Scenario.pan_moved = 0%float /\
  read getTranslateY Scenario.pan_moved <> 8%float.
Proof. vm_compute. repeat split; discriminate. Qed.

(** C1, amended.  With the default parameters and one contact landed at
    (100,100), the move to (100,108) takes the recognizer from POSSIBLE to
    BEGAN and on to CHANGED within the dispatch, after which
    [getTranslateX() = 0] and [getTranslateY() = 0], the start of the
    translation being the point where the gesture began.  The next move, to
    (105,108), fires CHANGED again and leaves [getTranslateX() = 5] and
    [getTranslateY() = 0]. *)
Theorem pan_scenario :
  state_ Scenario.pan_landed = POSSIBLE /\
  callbacks (touchesMoved Scenario.pan_first_move) Scenario.pan_landed
    = [BEGAN; CHANGED] /\
  state_ Scenario.pan_began = CHANGED /\
  centroidStartX_ Scenario.pan_began = 100%float /\
  centroidStartY_ Scenario.pan_began = 108%float /\
  outcome getTranslateX Scenario.pan_began = Normal 0%float /\
  outcome getTranslateY Scenario.pan_began = Normal 0%float /\
  callbacks (touchesMoved Scenario.pan_second_move) Scenario.pan_began
    = [CHANGED] /\
  state_ Scenario.pan_moved = CHANGED /\
  outcome getTranslateX Scenario.pan_moved = Normal 5%float /\
  outcome getTranslateY Scenario.pan_moved = Normal 0%float.
Proof. vm_compute. repeat split. Qed.

(* ================================================================== *)
(** ** A lift outside a gesture *)

(** C9.  A [touchesEnded] received in any state but CHANGED leaves every
    field of the recognizer as it was and fires nothing.  So the distance
    accumulated in POSSIBLE survives the lift of the last contact: after an
    attempt of 3 units that was given up, a second attempt of only 4 units
    begins the gesture, which it does not on a fresh recognizer. *)
Theorem touchesEnded_outside_CHANGED :
  (forall (r : PanRecognizer) (e : TouchEvent),
     state_ r <> CHANGED ->
     run (touchesEnded e) r = (Normal tt, {| this := r; fired := [] |})) /\
  (state_ Scenario.given_up = POSSIBLE /\
   centroidDistance_ Scenario.given_up = 3%float /\
   callbacks Scenario.second_attempt Scenario.given_up = [BEGAN; CHANGED] /\
   centroidDistance_ (after Scenario.second_attempt new_PanRecognizer)
     = 4%float /\
   callbacks Scenario.second_attempt new_PanRecognizer = []).
Proof.
  split.
  - intros r e Hs. apply State_eqb_neq in Hs.
    step_methods. rewrite Hs. reflexivity.
  - vm_compute. repeat split.
Qed.

Lemma touchesEnded_outside_CHANGED_witness :
  run (touchesEnded (event [])) Scenario.travelled_3
  = (Normal tt, {| this := Scenario.travelled_3; fired := [] |}).
Proof.
  apply (proj1 touchesEnded_outside_CHANGED).
  vm_compute. discriminate.
Defined.

(* ================================================================== *)
(** ** Changes of the contact set during a gesture *)

(** The translation is recomputed in binary64 arithmetic and its last bits
    may move.  Two contacts have panned from a centroid at 583 to one at
    78.5, so [getTranslateX()] is -504.5; a third contact lands and
    [getTranslateX()] becomes -504.50000000000006. *)
Lemma contact_added_rounds :
  state_ Scenario.two_moved = CHANGED /\
  (touchCount Scenario.third_contact <= maxTouchCount_ Scenario.two_moved)%Z /\
  read getTranslateX Scenario.two_moved = (-504.5)%float /\
  read getTranslateX (after (touchesBegan Scenario.third_contact)
                            Scenario.two_moved)
    = (-504.50000000000006)%float.
Proof.
  vm_compute.
  split; [reflexivity | split; [discriminate | split; reflexivity]].
Qed.

Lemma touchesBegan_CHANGED_run (r : PanRecognizer) (e : TouchEvent) :
  state_ r = CHANGED ->
  (touchCount e <= maxTouchCount_ r)%Z ->
  run (touchesBegan e) r = (Normal tt, {| this := refolded r e; fired := [] |}).
Proof.
  intros Hs Hmax. unfold touchCount in Hmax. apply Z.ltb_ge in Hmax.
  unfold refolded. step_methods. rewrite Hs. cbn. rewrite Hmax. reflexivity.
Qed.

Lemma touchesEnded_CHANGED_run (r : PanRecognizer) (e : TouchEvent) :
  state_ r = CHANGED ->
  (minTouchCount_ r <= touchCount e)%Z ->
  run (touchesEnded e) r = (Normal tt, {| this := refolded r e; fired := [] |}).
Proof.
  intros Hs Hmin. unfold touchCount in Hmin. apply Z.leb_le in Hmin.
  unfold refolded. step_methods. rewrite Hs. cbn. rewrite Hmin. reflexivity.
Qed.

(** Without rounding, folding the jump of the centroid into the shift
    leaves [page - start + shift] where it was. *)
Lemma no_rounding_same_value (page start shift page' : JS.number) :
  no_rounding page start shift page' ->
  JS.isFinite (page' - start + (shift - (page' - page)))%float = true /\
  (JS.value (page' - start + (shift - (page' - page)))%float
   == JS.value (page - start + shift)%float)%Q.
Proof.
  intros ([_ E1] & [_ E2] & [_ E3] & [_ E4] & [_ E5] & [F6 E6]).
  split; [exact F6|].
  rewrite E6, E5, E4, E3, E2, E1. ring.
Qed.

(* ================================================================== *)
(** ** The rounding error of a binary64 addition or subtraction *)

Section Rounding.

Local Open Scope Z_scope.

Lemma digits2_pos_bounds (p : positive) :
  2 ^ (Z.pos (digits2_pos p) - 1) <= Z.pos p < 2 ^ Z.pos (digits2_pos p).
Proof.
  induction p as [p IH | p IH |]; cbn [digits2_pos].
  - rewrite Pos2Z.inj_succ, (Pos2Z.inj_xI p).
    replace (Z.succ (Z.pos (digits2_pos p)) - 1)
      with (Z.succ (Z.pos (digits2_pos p) - 1)) by lia.
    rewrite !Z.pow_succ_r by lia.
    set (a := 2 ^ (Z.pos (digits2_pos p) - 1)) in *.
    set (b := 2 ^ Z.pos (digits2_pos p)) in *. clearbody a b. lia.
  - rewrite Pos2Z.inj_succ, (Pos2Z.inj_xO p).
    replace (Z.succ (Z.pos (digits2_pos p)) - 1)
      with (Z.succ (Z.pos (digits2_pos p) - 1)) by lia.
    rewrite !Z.pow_succ_r by lia.
    set (a := 2 ^ (Z.pos (digits2_pos p) - 1)) in *.
    set (b := 2 ^ Z.pos (digits2_pos p)) in *. clearbody a b. lia.
  - cbn. lia.
Qed.

Lemma Zdigits2_unique (m d : Z) :
  0 < d -> 2 ^ (d - 1) <= m < 2 ^ d -> Zdigits2 m = d.
Proof.
  intros Hd [Hlo Hhi].
  assert (Hm : 0 < m) by (pose proof (Z.pow_pos_nonneg 2 (d - 1)); lia).
  destruct m as [| p | p]; try lia. cbn [Zdigits2].
  pose proof (digits2_pos_bounds p) as [Blo Bhi].
  set (d' := Z.pos (digits2_pos p)) in *.
  assert (d' - 1 < d) by (apply (Z.pow_lt_mono_r_iff 2); lia).
  assert (d - 1 < d') by (apply (Z.pow_lt_mono_r_iff 2); lia).
  lia.
Qed.

Lemma shr_1_inv (m k : Z) (mrs : shr_record) :
  0 <= k -> shr_inv m k mrs -> shr_inv m (k + 1) (shr_1 mrs).
Proof.
  intros Hk. unfold shr_inv. destruct mrs as [mk r s]. cbn [shr_m shr_r shr_s].
  rewrite Z.pow_add_r by lia. change (2 ^ 1) with 2.
  pose proof (Z.pow_pos_nonneg 2 k) as Hpos.
  set (X := 2 ^ k) in *. clearbody X.
  intros (Hm & Hrem & Hloc).
  destruct mk as [| p | p]; [| | lia].
  - cbn [shr_1 shr_m shr_r shr_s]. destruct r, s; cbn [orb]; lia.
  - destruct p as [p | p |]; cbn [shr_1 shr_m shr_r shr_s];
      rewrite ?(Pos2Z.inj_xI p), ?(Pos2Z.inj_xO p) in *;
      destruct r, s; cbn [orb]; nia.
Qed.

Lemma iter_shr_1_inv (m : Z) (p : positive) :
  forall (k : Z) (mrs : shr_record),
    0 <= k -> shr_inv m k mrs ->
    shr_inv m (k + Z.pos p) (iter_pos shr_1 p mrs).
Proof.
  induction p as [p IH | p IH |]; intros k mrs Hk H; cbn [iter_pos].
  - replace (k + Z.pos p~1) with (k + 1 + Z.pos p + Z.pos p) by lia.
    apply IH; [lia|]. apply IH; [lia|]. now apply shr_1_inv.
  - replace (k + Z.pos p~0) with (k + Z.pos p + Z.pos p) by lia.
    apply IH; [lia|]. now apply IH.
  - now apply shr_1_inv.
Qed.

Lemma round_nearest_even_error (m k : Z) (mrs : shr_record) :
  shr_inv m k mrs ->
  let mr := round_nearest_even (shr_m mrs) (loc_of_shr_record mrs) in
  shr_m mrs <= mr <= shr_m mrs + 1 /\
  2 * Z.abs (m - mr * 2 ^ k) <= 2 ^ k.
Proof.
  unfold shr_inv. destruct mrs as [mk r s]. cbn [shr_m shr_r shr_s].
  intros (Hm & Hrem & Hloc).
  destruct r, s; cbn [loc_of_shr_record round_nearest_even];
    try destruct (Z.even mk); split; lia.
Qed.

Lemma shr_inv_start (m : Z) :
  0 <= m -> shr_inv m 0 {| shr_m := m; shr_r := false; shr_s := false |}.
Proof. intros H. unfold shr_inv. cbn. lia. Qed.

Lemma fexp_eq (e : Z) : fexp prec emax e = Z.max (e - 53) (-1074).
Proof. reflexivity. Qed.

Lemma first_stage (mx : positive) (ex : Z) :
  -1074 <= ex ->
  let mrs' := fst (shr_fexp prec emax (Z.pos mx) ex loc_Exact) in
  let e' := snd (shr_fexp prec emax (Z.pos mx) ex loc_Exact) in
  let mr := round_nearest_even (shr_m mrs') (loc_of_shr_record mrs') in
  ex <= e' /\
  (Zdigits2 mr <= 53 /\ mr = Z.pos mx /\ e' = ex
   \/ 2 ^ 52 <= mr <= 2 ^ 53 /\
      2 * Z.abs (Z.pos mx - mr * 2 ^ (e' - ex)) <= 2 ^ (e' - ex)).
Proof.
  intros Hex. unfold shr_fexp, shr. cbn [shr_record_of_loc Zdigits2].
  rewrite fexp_eq.
  pose proof (digits2_pos_bounds mx) as [Dlo Dhi].
  set (d := Z.pos (digits2_pos mx)) in *.
  assert (Hd : 0 < d) by (unfold d; lia).
  destruct (Z.max (d + ex - 53) (-1074) - ex) as [| p | p] eqn:En;
    cbn [fst snd shr_m shr_r shr_s loc_of_shr_record round_nearest_even].
  - split; [lia|]. left. cbn [Zdigits2]. fold d. lia.
  - pose proof (iter_shr_1_inv (Z.pos mx) p 0 _ (Z.le_refl 0)
                  (shr_inv_start (Z.pos mx) (Pos2Z.is_nonneg mx))) as Hinv.
    rewrite Z.add_0_l in Hinv.
    pose proof (round_nearest_even_error _ _ _ Hinv) as Hr. cbv zeta in Hr.
    destruct Hinv as (Hm & Hrem & _).
    set (mrs := iter_pos shr_1 p _) in *.
    set (mr := round_nearest_even (shr_m mrs) (loc_of_shr_record mrs)) in *.
    replace (ex + Z.pos p - ex) with (Z.pos p) by lia.
    split; [lia|]. right. split; [|apply Hr].
    assert (Ep : d = Z.pos p + 53) by lia.
    rewrite Ep in Dlo, Dhi.
    replace (Z.pos p + 53 - 1) with (Z.pos p + 52) in Dlo by lia.
    rewrite Z.pow_add_r in Dlo, Dhi by lia.
    pose proof (Z.pow_pos_nonneg 2 (Z.pos p) eq_refl (Pos2Z.is_nonneg p)) as HX.
    set (X := 2 ^ Z.pos p) in *. clearbody X. clearbody mr.
    change (2 ^ 52) with 4503599627370496 in *.
    change (2 ^ 53) with 9007199254740992 in *.
    nia.
  - split; [lia|]. left. cbn [Zdigits2]. fold d. lia.
Qed.

Lemma second_stage (mr e1 : Z) :
  -1074 <= e1 ->
  0 < mr /\ Zdigits2 mr <= 53 \/ mr = 2 ^ 53 ->
  let mrs'' := fst (shr_fexp prec emax mr e1 loc_Exact) in
  let e'' := snd (shr_fexp prec emax mr e1 loc_Exact) in
  0 < shr_m mrs'' /\ e1 <= e'' /\ shr_m mrs'' * 2 ^ (e'' - e1) = mr.
Proof.
  intros He [[Hpos Hd] | ->]; unfold shr_fexp, shr; cbn [shr_record_of_loc];
    rewrite fexp_eq.
  - destruct (Z.max (Zdigits2 mr + e1 - 53) (-1074) - e1) as [| p | p] eqn:En;
      cbn [fst snd shr_m]; try lia.
    + rewrite Z.sub_diag, Z.pow_0_r. lia.
    + rewrite Z.sub_diag, Z.pow_0_r. lia.
  - change (Zdigits2 (2 ^ 53)) with 54.
    replace (Z.max (54 + e1 - 53) (-1074) - e1) with 1 by lia.
    cbn [fst snd]. replace (e1 + 1 - e1) with 1 by lia.
    split; [reflexivity | split; [lia | reflexivity]].
Qed.

Lemma binary_round_aux_error (sx : bool) (mx : positive) (ex : Z) :
  -1074 <= ex ->
  match binary_round_aux prec emax sx (Z.pos mx) ex loc_Exact with
  | S754_finite s m' e' =>
      s = sx /\ -1074 <= e' /\
      2 ^ 53 * Z.abs (Z.pos mx * 2 ^ (ex + 1074) - Z.pos m' * 2 ^ (e' + 1074))
      <= Z.pos m' * 2 ^ (e' + 1074)
  | S754_infinity _ => True
  | _ => False
  end.
Proof.
  intros Hex. unfold binary_round_aux.
  pose proof (first_stage mx ex Hex) as H1. cbv zeta in H1.
  destruct (shr_fexp prec emax (Z.pos mx) ex loc_Exact) as [mrs' e'].
  cbn [fst snd] in H1.
  set (mr := round_nearest_even (shr_m mrs') (loc_of_shr_record mrs')) in *.
  destruct H1 as [Hle H1].
  assert (Hmr : 0 < mr /\ Zdigits2 mr <= 53 \/ mr = 2 ^ 53).
  { destruct H1 as [(Hd & -> & _) | ([Hlo Hhi] & _)].
    - left. split; [lia | exact Hd].
    - destruct (Z.eq_dec mr (2 ^ 53)) as [E | E]; [right; exact E | left].
      change (2 ^ 52) with 4503599627370496 in *.
      change (2 ^ 53) with 9007199254740992 in *.
      split; [lia|].
      rewrite (Zdigits2_unique mr 53); [lia | lia |].
      change (2 ^ (53 - 1)) with 4503599627370496.
      change (2 ^ 53) with 9007199254740992. lia. }
  pose proof (second_stage mr e' (Z.le_trans _ _ _ Hex Hle) Hmr) as H2.
  cbv zeta in H2.
  destruct (shr_fexp prec emax mr e' loc_Exact) as [mrs'' e''].
  cbn [fst snd] in H2. destruct H2 as (Hpos & Hle2 & Hval).
  destruct (shr_m mrs'') as [| m' | m'] eqn:Em; try lia.
  destruct (e'' <=? emax - prec); [|exact I].
  split; [reflexivity|]. split; [lia|].
  (* the value of the result is mr * 2^(e' + 1074) *)
  assert (Hy : Z.pos m' * 2 ^ (e'' + 1074) = mr * 2 ^ (e' + 1074)).
  { replace (e'' + 1074) with ((e'' - e') + (e' + 1074)) by lia.
    rewrite (Z.pow_add_r 2 (e'' - e') (e' + 1074)) by lia.
    rewrite <- Hval. ring. }
  rewrite Hy.
  destruct H1 as [(_ & -> & ->) | ([Hlo Hhi] & Herr)].
  - rewrite Z.sub_diag. cbn [Z.abs]. rewrite Z.mul_0_r.
    apply Z.mul_nonneg_nonneg; [lia | apply Z.pow_nonneg; lia].
  - replace (e' + 1074) with ((e' - ex) + (ex + 1074)) by lia.
    rewrite (Z.pow_add_r 2 (e' - ex) (ex + 1074)) by lia.
    pose proof (Z.pow_pos_nonneg 2 (ex + 1074) eq_refl) as HA.
    pose proof (Z.pow_pos_nonneg 2 (e' - ex) eq_refl) as HB.
    set (A := 2 ^ (ex + 1074)) in *. set (B := 2 ^ (e' - ex)) in *.
    assert (0 < A) by (apply HA; lia). assert (0 < B) by (apply HB; lia).
    clearbody A B. clearbody mr.
    replace (Z.pos mx * A - mr * (B * A)) with ((Z.pos mx - mr * B) * A) by ring.
    rewrite Z.abs_mul, (Z.abs_eq A) by lia.
    change (2 ^ 52) with 4503599627370496 in *.
    change (2 ^ 53) with 9007199254740992 in *.
    set (t := Z.abs (Z.pos mx - mr * B)) in *.
    assert (Ht : 0 <= t) by apply Z.abs_nonneg. clearbody t.
    assert (Hs : 9007199254740992 * t <= mr * B) by nia.
    replace (9007199254740992 * (t * A)) with ((9007199254740992 * t) * A)
      by ring.
    replace (mr * (B * A)) with ((mr * B) * A) by ring.
    apply Z.mul_le_mono_nonneg_r; lia.
Qed.

Lemma iter_xO_value (m d : positive) :
  Z.pos (Pos.iter xO m d) = Z.pos m * 2 ^ Z.pos d.
Proof.
  induction d as [| d IH] using Pos.peano_ind.
  - cbn [Pos.iter]. rewrite (Pos2Z.inj_xO m). change (2 ^ 1) with 2. ring.
  - rewrite Pos.iter_succ, (Pos2Z.inj_xO (Pos.iter xO m d)), IH.
    rewrite Pos2Z.inj_succ, Z.pow_succ_r by lia. ring.
Qed.

Lemma shl_align_value (mx : positive) (ex ex' : Z) :
  -1074 <= ex -> -1074 <= ex' ->
  let mz := fst (shl_align mx ex ex') in
  let ez := snd (shl_align mx ex ex') in
  ez = Z.min ex ex' /\
  Z.pos mz * 2 ^ (ez + 1074) = Z.pos mx * 2 ^ (ex + 1074) /\
  (ex' <= ex -> Z.pos mz = Z.pos mx * 2 ^ (ex - ex')).
Proof.
  intros Hex Hex'.
  unfold shl_align. destruct (ex' - ex) as [| d | d] eqn:E; cbn [fst snd].
  - assert (ex' = ex) by lia. subst ex'. rewrite Z.sub_diag, Z.pow_0_r.
    split; [lia | split; [reflexivity | intros _; ring]].
  - split; [lia | split; [reflexivity | intros H; lia]].
  - assert (Hd : ex - ex' = Z.pos d) by lia.
    rewrite iter_xO_value, Hd.
    split; [lia | split; [| intros _; reflexivity]].
    replace (ex + 1074) with (Z.pos d + (ex' + 1074)) by lia.
    rewrite (Z.pow_add_r 2 (Z.pos d) (ex' + 1074)) by lia. ring.
Qed.

Lemma binary_round_error (sx : bool) (mx : positive) (ex : Z) :
  -1074 <= ex ->
  match binary_round prec emax sx mx ex with
  | S754_finite s m' e' =>
      s = sx /\ -1074 <= e' /\
      2 ^ 53 * Z.abs (Z.pos mx * 2 ^ (ex + 1074) - Z.pos m' * 2 ^ (e' + 1074))
      <= Z.pos m' * 2 ^ (e' + 1074)
  | S754_infinity _ => True
  | _ => False
  end.
Proof.
  intros Hex. unfold binary_round.
  assert (Hf : -1074 <= fexp prec emax (Z.pos (digits2_pos mx) + ex))
    by (rewrite fexp_eq; lia).
  pose proof (shl_align_value mx ex _ Hex Hf) as H. cbv zeta in H.
  destruct (shl_align mx ex _) as [mz ez]. cbn [fst snd] in H.
  destruct H as (Hez & Hval & _).
  rewrite <- Hval. apply binary_round_aux_error. lia.
Qed.

(** The result of [binary_normalize] on the integer [m] at exponent [e]:
    never NaN, and when finite within half a unit in the last place. *)
Lemma binary_normalize_error (m e : Z) (szero : bool) :
  -1074 <= e ->
  match binary_normalize prec emax m e szero with
  | S754_nan => False
  | S754_infinity _ => True
  | r => 2 ^ 53 * Z.abs (m * 2 ^ (e + 1074) - scaled r) <= Z.abs (scaled r)
  end.
Proof.
  intros He. unfold binary_normalize. destruct m as [| p | p].
  - cbn. lia.
  - pose proof (binary_round_error false p e He) as H.
    destruct (binary_round prec emax false p e) as [s | s | | s m' e'];
      try contradiction; try exact I.
    destruct H as (-> & He' & H). cbn [scaled cond_Zopp].
    rewrite (Z.abs_eq (Z.pos m' * _)); [exact H|].
    apply Z.mul_nonneg_nonneg; [lia | apply Z.pow_nonneg; lia].
  - pose proof (binary_round_error true p e He) as H.
    destruct (binary_round prec emax true p e) as [s | s | | s m' e'];
      try contradiction; try exact I.
    destruct H as (-> & He' & H). cbn [scaled cond_Zopp].
    rewrite Z.abs_opp.
    rewrite (Z.abs_eq (Z.pos m' * _))
      by (apply Z.mul_nonneg_nonneg; [lia | apply Z.pow_nonneg; lia]).
    replace (Z.neg p * 2 ^ (e + 1074) - - (Z.pos m' * 2 ^ (e' + 1074)))
      with (- (Z.pos p * 2 ^ (e + 1074) - Z.pos m' * 2 ^ (e' + 1074)))
      by (rewrite <- Pos2Z.opp_pos; ring).
    rewrite Z.abs_opp. exact H.
Qed.

Lemma valid_exponent (s : bool) (m : positive) (e : Z) :
  valid_binary (S754_finite s m e) = true -> -1074 <= e.
Proof.
  unfold valid_binary, SpecFloat.valid_binary, bounded, canonical_mantissa.
  rewrite fexp_eq. intros H. apply andb_true_iff in H as [H _].
  apply Z.eqb_eq in H. lia.
Qed.

Lemma cond_Zopp_scaled (s : bool) (m : positive) (e ez : Z) :
  -1074 <= ez -> ez <= e ->
  cond_Zopp s (Z.pos m * 2 ^ (e - ez)) * 2 ^ (ez + 1074)
  = scaled (S754_finite s m e).
Proof.
  intros H1 H2. cbn [scaled].
  replace (e + 1074) with ((e - ez) + (ez + 1074)) by lia.
  rewrite (Z.pow_add_r 2 (e - ez) (ez + 1074)) by lia.
  destruct s; cbn [cond_Zopp]; ring.
Qed.

Lemma SF64add_error (x y : spec_float) :
  valid_binary x = true -> valid_binary y = true ->
  finite_or_zero (SF64add x y) = true ->
  finite_or_zero x = true /\ finite_or_zero y = true /\
  2 ^ 53 * Z.abs (scaled x + scaled y - scaled (SF64add x y))
  <= Z.abs (scaled (SF64add x y)).
Proof.
  intros Vx Vy. unfold SF64add, SFadd.
  destruct x as [sx | sx | | sx mx ex]; destruct y as [sy | sy | | sy my ey];
    try (destruct sx, sy; discriminate); try discriminate.
  - intros _. split; [reflexivity | split; [reflexivity|]].
    destruct sx, sy; cbn; lia.
  - intros _. split; [reflexivity | split; [reflexivity|]].
    cbn [scaled]. rewrite Z.add_0_l, Z.sub_diag. cbn [Z.abs]. lia.
  - intros _. split; [reflexivity | split; [reflexivity|]].
    cbn [scaled]. rewrite Z.add_0_r, Z.sub_diag. cbn [Z.abs]. lia.
  - intros Hf. split; [reflexivity | split; [reflexivity|]].
    apply valid_exponent in Vx, Vy.
    set (ez := Z.min ex ey) in *.
    pose proof (shl_align_value mx ex ez Vx ltac:(lia)) as (_ & _ & Hx).
    pose proof (shl_align_value my ey ez Vy ltac:(lia)) as (_ & _ & Hy).
    rewrite (Hx ltac:(lia)), (Hy ltac:(lia)) in *.
    pose proof (binary_normalize_error
                  (cond_Zopp sx (Z.pos mx * 2 ^ (ex - ez))
                   + cond_Zopp sy (Z.pos my * 2 ^ (ey - ez))) ez false
                  ltac:(lia)) as H.
    rewrite Z.mul_add_distr_r in H.
    rewrite !cond_Zopp_scaled in H by lia.
    destruct (binary_normalize prec emax _ ez false); try discriminate;
      exact H.
Qed.

Lemma SF64sub_error (x y : spec_float) :
  valid_binary x = true -> valid_binary y = true ->
  finite_or_zero (SF64sub x y) = true ->
  finite_or_zero x = true /\ finite_or_zero y = true /\
  2 ^ 53 * Z.abs (scaled x - scaled y - scaled (SF64sub x y))
  <= Z.abs (scaled (SF64sub x y)).
Proof.
  intros Vx Vy. unfold SF64sub, SFsub.
  destruct x as [sx | sx | | sx mx ex]; destruct y as [sy | sy | | sy my ey];
    try (destruct sx, sy; discriminate); try discriminate.
  - intros _. split; [reflexivity | split; [reflexivity|]].
    destruct sx, sy; cbn; lia.
  - intros _. split; [reflexivity | split; [reflexivity|]].
    cbn [scaled]. destruct sy; cbn [negb cond_Zopp]; lia.
  - intros _. split; [reflexivity | split; [reflexivity|]].
    cbn [scaled]. rewrite Z.sub_0_r, Z.sub_diag. cbn [Z.abs]. lia.
  - intros Hf. split; [reflexivity | split; [reflexivity|]].
    apply valid_exponent in Vx, Vy.
    set (ez := Z.min ex ey) in *.
    pose proof (shl_align_value mx ex ez Vx ltac:(lia)) as (_ & _ & Hx).
    pose proof (shl_align_value my ey ez Vy ltac:(lia)) as (_ & _ & Hy).
    rewrite (Hx ltac:(lia)), (Hy ltac:(lia)) in *.
    pose proof (binary_normalize_error
                  (cond_Zopp sx (Z.pos mx * 2 ^ (ex - ez))
                   - cond_Zopp sy (Z.pos my * 2 ^ (ey - ez))) ez false
                  ltac:(lia)) as H.
    rewrite Z.mul_sub_distr_r in H.
    rewrite !cond_Zopp_scaled in H by lia.
    destruct (binary_normalize prec emax _ ez false); try discriminate;
      exact H.
Qed.

Lemma ulp_min_pos : (0 < ulp_min)%Q.
Proof. unfold ulp_min. vm_compute. reflexivity. Qed.

Lemma Qpower_2_scaled (e : Z) :
  -1074 <= e ->
  (Qpower 2 e == inject_Z (2 ^ (e + 1074)) * ulp_min)%Q.
Proof.
  intros He. unfold ulp_min.
  rewrite Zpower_Qpower by lia.
  rewrite <- Qpower_plus by discriminate.
  replace (e + 1074 + -1074) with e by lia. reflexivity.
Qed.

Lemma SF2Q_scaled (x : spec_float) :
  valid_binary x = true ->
  (JS.SF2Q x == inject_Z (scaled x) * ulp_min)%Q.
Proof.
  intros V. destruct x as [s | s | | s m e]; cbn [JS.SF2Q scaled];
    try (rewrite Qmult_0_l; reflexivity).
  apply valid_exponent in V.
  destruct s; cbn [cond_Zopp]; cbv zeta;
    rewrite (Qpower_2_scaled e V), ?inject_Z_opp, inject_Z_mult; ring.
Qed.

Lemma value_scaled (x : JS.number) :
  (JS.value x == inject_Z (scaled (Prim2SF x)) * ulp_min)%Q.
Proof. apply SF2Q_scaled, Prim2SF_valid. Qed.

Lemma add_rounding (a b : JS.number) :
  JS.isFinite (a + b)%float = true ->
  JS.isFinite a = true /\ JS.isFinite b = true /\
  2 ^ 53 * Z.abs (scaled (Prim2SF a) + scaled (Prim2SF b)
                  - scaled (Prim2SF (a + b)%float))
  <= Z.abs (scaled (Prim2SF (a + b)%float)).
Proof.
  unfold JS.isFinite. rewrite FloatAxioms.add_spec.
  apply SF64add_error; apply Prim2SF_valid.
Qed.

Lemma sub_rounding (a b : JS.number) :
  JS.isFinite (a - b)%float = true ->
  JS.isFinite a = true /\ JS.isFinite b = true /\
  2 ^ 53 * Z.abs (scaled (Prim2SF a) - scaled (Prim2SF b)
                  - scaled (Prim2SF (a - b)%float))
  <= Z.abs (scaled (Prim2SF (a - b)%float)).
Proof.
  unfold JS.isFinite. rewrite FloatAxioms.sub_spec.
  apply SF64sub_error; apply Prim2SF_valid.
Qed.


Lemma Qabs_scaled (z : Z) :
  (Qabs (inject_Z z * ulp_min) == inject_Z (Z.abs z) * ulp_min)%Q.
Proof.
  rewrite Qabs_Qmult, (Qabs_pos ulp_min).
  - reflexivity.
  - apply Qlt_le_weak, ulp_min_pos.
Qed.

Lemma Qle_scaled (a b : Z) :
  2 ^ 53 * a <= b -> (inject_Z a <= (1 # 2 ^ 53) * inject_Z b)%Q.
Proof.
  intros H. unfold Qle. cbn [Qnum Qden Qmult inject_Z].
  change (2 ^ 53) with 9007199254740992 in H.
  change (Z.pos (2 ^ 53 * 1)) with 9007199254740992. lia.
Qed.

Lemma fold_rounding_scaled (page start shift page' : JS.number) :
  steps_finite page start shift page' ->
  let sv x := scaled (Prim2SF x) in
  2 ^ 53 * Z.abs (sv (page' - start + (shift - (page' - page)))%float
                  - sv (page - start + shift)%float)
  <= Z.abs (sv (page - start)%float)
     + Z.abs (sv (page - start + shift)%float)
     + Z.abs (sv (page' - page)%float)
     + Z.abs (sv (shift - (page' - page))%float)
     + Z.abs (sv (page' - start)%float)
     + Z.abs (sv (page' - start + (shift - (page' - page)))%float).
Proof.
  intros (F1 & F2 & F3 & F4 & F5 & F6) sv. unfold sv.
  destruct (sub_rounding _ _ F1) as (_ & _ & E1).
  destruct (add_rounding _ _ F2) as (_ & _ & E2).
  destruct (sub_rounding _ _ F3) as (_ & _ & E3).
  destruct (sub_rounding _ _ F4) as (_ & _ & E4).
  destruct (sub_rounding _ _ F5) as (_ & _ & E5).
  destruct (add_rounding _ _ F6) as (_ & _ & E6).
  change (2 ^ 53) with 9007199254740992 in *.
  lia.
Qed.

Lemma fold_rounding (page start shift page' : JS.number) :
  steps_finite page start shift page' ->
  (Qabs (JS.value (page' - start + (shift - (page' - page)))
         - JS.value (page - start + shift))
   <= (1 # 2 ^ 53) * steps_magnitude page start shift page')%Q.
Proof.
  intros H. pose proof (fold_rounding_scaled _ _ _ _ H) as B. cbv zeta in B.
  unfold steps_magnitude. rewrite !value_scaled.
  set (a := scaled (Prim2SF (page' - start + (shift - (page' - page))))) in *.
  set (b := scaled (Prim2SF (page - start + shift))) in *.
  set (c1 := scaled (Prim2SF (page - start))) in *.
  set (c3 := scaled (Prim2SF (page' - page))) in *.
  set (c4 := scaled (Prim2SF (shift - (page' - page)))) in *.
  set (c5 := scaled (Prim2SF (page' - start))) in *.
  clearbody a b c1 c3 c4 c5.
  assert (E : (inject_Z a * ulp_min - inject_Z b * ulp_min
               == inject_Z (a - b) * ulp_min)%Q).
  { unfold Z.sub. rewrite inject_Z_plus, inject_Z_opp. ring. }
  rewrite E, !Qabs_scaled.
  assert (S : ((1 # 2 ^ 53)
               * (inject_Z (Z.abs c1) * ulp_min + inject_Z (Z.abs b) * ulp_min
                  + inject_Z (Z.abs c3) * ulp_min
                  + inject_Z (Z.abs c4) * ulp_min
                  + inject_Z (Z.abs c5) * ulp_min
                  + inject_Z (Z.abs a) * ulp_min)
               == ((1 # 2 ^ 53)
                   * inject_Z (Z.abs c1 + Z.abs b + Z.abs c3 + Z.abs c4
                               + Z.abs c5 + Z.abs a)) * ulp_min)%Q).
  { rewrite !inject_Z_plus. ring. }
  rewrite S. apply Qmult_le_compat_r; [|apply Qlt_le_weak, ulp_min_pos].
  apply Qle_scaled. exact B.
Qed.

End Rounding.

(** A sum or difference that is a finite number has finite operands, so a
    finite translation before and after a fold leaves no room for an
    overflow in between. *)
Lemma finite_add_inv (a b : JS.number) :
  JS.isFinite (a + b) = true -> JS.isFinite a = true /\ JS.isFinite b = true.
Proof.
  unfold JS.isFinite. rewrite FloatAxioms.add_spec. unfold SF64add, SFadd.
  destruct (Prim2SF a) as [sa | sa | | sa ma ea];
    destruct (Prim2SF b) as [sb | sb | | sb mb eb];
    try (intros H; split; (reflexivity || exact H)); try discriminate.
  destruct sa, sb; discriminate.
Qed.

Lemma finite_sub_inv (a b : JS.number) :
  JS.isFinite (a - b) = true -> JS.isFinite a = true /\ JS.isFinite b = true.
Proof.
  unfold JS.isFinite. rewrite FloatAxioms.sub_spec. unfold SF64sub, SFsub.
  destruct (Prim2SF a) as [sa | sa | | sa ma ea];
    destruct (Prim2SF b) as [sb | sb | | sb mb eb];
    try (intros H; split; (reflexivity || exact H)); try discriminate.
  destruct sa, sb; discriminate.
Qed.

Lemma finite_translations (page start shift page' : JS.number) :
  JS.isFinite (page - start + shift) = true ->
  JS.isFinite (page' - start + (shift - (page' - page))) = true ->
  steps_finite page start shift page'.
Proof.
  intros H2 H6.
  destruct (finite_add_inv _ _ H2) as [H1 _].
  destruct (finite_add_inv _ _ H6) as [H5 H4].
  destruct (finite_sub_inv _ _ H4) as [_ H3].
  repeat split; assumption.
Qed.

(** C3, as stated, fails: a contact that joins far away pushes the
    recomputation beyond the binary64 range.  One contact lands at x = -1e308 and pans to x = 5e307,
    so [getTranslateX()] is 1.5e308; a second contact lands at x = 1.2e308,
    the centroid moves to 8.5e307, [8.5e307 - -1e308] overflows, and
    [getTranslateX()] becomes Infinity. *)
Lemma contact_change_counterexample :
  state_ Scenario.far_moved = CHANGED /\
  (touchCount Scenario.far_contact <= maxTouchCount_ Scenario.far_moved)%Z /\
  run (touchesBegan Scenario.far_contact) Scenario.far_moved
  = (Normal tt,
     {| this := refolded Scenario.far_moved Scenario.far_contact;
        fired := [] |}) /\
  read getTranslateX Scenario.far_moved = 1.5e308%float /\
  read getTranslateX (after (touchesBegan Scenario.far_contact)
                            Scenario.far_moved)
    = infinity /\
  read getTranslateY (after (touchesBegan Scenario.far_contact)
                            Scenario.far_moved)
    = read getTranslateY Scenario.far_moved.
Proof.
  vm_compute.
  split; [reflexivity | split; [discriminate | repeat split]].
Qed.

(** C3, amended.  In CHANGED, a [touchesBegan] whose contact count does not
    exceed [maximumTouchCount] and a [touchesEnded] whose contact count
    still reaches [minimumTouchCount] keep the state, fire nothing, and fold
    the jump of the centroid into the shift accumulator
    ([shift - (newCentroid - oldCentroid)], centroidStart untouched), so
    that the translation becomes
    [newCentroid - start + (shift - (newCentroid - oldCentroid))].  Whenever
    the translation is a finite number both before and after the dispatch,
    the two differ by no more than the rounding of the six binary64
    operations involved: at most [2^-53] times the sum of the magnitudes of
    their results.  They are the same number when no operation rounds. *)
Theorem contact_change_keeps_translation (r : PanRecognizer) (e : TouchEvent) :
  state_ r = CHANGED ->
  let c := centroid (targetTouches e) in
  ((touchCount e <= maxTouchCount_ r)%Z ->
     run (touchesBegan e) r
     = (Normal tt, {| this := refolded r e; fired := [] |})) /\
  ((minTouchCount_ r <= touchCount e)%Z ->
     run (touchesEnded e) r
     = (Normal tt, {| this := refolded r e; fired := [] |})) /\
  state_ (refolded r e) = CHANGED /\
  centroidStartX_ (refolded r e) = centroidStartX_ r /\
  centroidStartY_ (refolded r e) = centroidStartY_ r /\
  centroidDistance_ (refolded r e) = centroidDistance_ r /\
  read getTranslateX (refolded r e)
  = (fst c - centroidStartX_ r
     + (centroidShiftX_ r - (fst c - pageX_ r)))%float /\
  read getTranslateY (refolded r e)
  = (snd c - centroidStartY_ r
     + (centroidShiftY_ r - (snd c - pageY_ r)))%float /\
  (JS.isFinite (read getTranslateX r) = true ->
   JS.isFinite (read getTranslateX (refolded r e)) = true ->
     (Qabs (JS.value (read getTranslateX (refolded r e))
            - JS.value (read getTranslateX r))
      <= (1 # 2 ^ 53)
         * steps_magnitude (pageX_ r) (centroidStartX_ r) (centroidShiftX_ r)
                           (fst c))%Q) /\
  (JS.isFinite (read getTranslateY r) = true ->
   JS.isFinite (read getTranslateY (refolded r e)) = true ->
     (Qabs (JS.value (read getTranslateY (refolded r e))
            - JS.value (read getTranslateY r))
      <= (1 # 2 ^ 53)
         * steps_magnitude (pageY_ r) (centroidStartY_ r) (centroidShiftY_ r)
                           (snd c))%Q) /\
  (no_rounding (pageX_ r) (centroidStartX_ r) (centroidShiftX_ r) (fst c) ->
     JS.isFinite (read getTranslateX (refolded r e)) = true /\
     (JS.value (read getTranslateX (refolded r e))
      == JS.value (read getTranslateX r))%Q) /\
  (no_rounding (pageY_ r) (centroidStartY_ r) (centroidShiftY_ r) (snd c) ->
     JS.isFinite (read getTranslateY (refolded r e)) = true /\
     (JS.value (read getTranslateY (refolded r e))
      == JS.value (read getTranslateY r))%Q).
Proof.
  intros Hs c.
  split; [intros H; now apply touchesBegan_CHANGED_run|].
  split; [intros H; now apply touchesEnded_CHANGED_run|].
  split; [exact Hs|].
  split; [reflexivity|]. split; [reflexivity|]. split; [reflexivity|].
  split; [reflexivity|]. split; [reflexivity|].
  split; [intros H H';
          exact (fold_rounding _ _ _ _ (finite_translations _ _ _ _ H H'))|].
  split; [intros H H';
          exact (fold_rounding _ _ _ _ (finite_translations _ _ _ _ H H'))|].
  split; intros H; apply no_rounding_same_value in H; exact H.
Qed.

Lemma contact_change_keeps_translation_witness :
  (run (touchesBegan Scenario.third_contact) Scenario.two_moved
   = (Normal tt,
      {| this := refolded Scenario.two_moved Scenario.third_contact;
         fired := [] |}) /\
   (Qabs (JS.value (read getTranslateX
                      (refolded Scenario.two_moved Scenario.third_contact))
          - JS.value (read getTranslateX Scenario.two_moved))
    <= 1 # 1000000000000)%Q /\
   (JS.value (read getTranslateY
                (refolded Scenario.two_moved Scenario.third_contact))
    == JS.value (read getTranslateY Scenario.two_moved))%Q) /\
  (run (touchesEnded Scenario.pan_first_lifted) Scenario.pan_two_contacts
   = (Normal tt,
      {| this := refolded Scenario.pan_two_contacts Scenario.pan_first_lifted;
         fired := [] |}) /\
   (JS.value (read getTranslateX
                (refolded Scenario.pan_two_contacts Scenario.pan_first_lifted))
    == JS.value (read getTranslateX Scenario.pan_two_contacts))%Q).
Proof.
  assert (S1 : state_ Scenario.two_moved = CHANGED)
    by (vm_compute; reflexivity).
  assert (S2 : state_ Scenario.pan_two_contacts = CHANGED)
    by (vm_compute; reflexivity).
  pose proof (contact_change_keeps_translation
                Scenario.two_moved Scenario.third_contact S1) as K1.
  pose proof (contact_change_keeps_translation
                Scenario.pan_two_contacts Scenario.pan_first_lifted S2) as K2.
  cbv zeta in K1, K2.
  destruct K1 as (B1 & _ & _ & _ & _ & _ & _ & _ & X1 & _ & _ & Y1).
  destruct K2 as (_ & E2 & _ & _ & _ & _ & _ & _ & _ & _ & X2 & _).
  assert (C1 : (touchCount Scenario.third_contact
                <= maxTouchCount_ Scenario.two_moved)%Z)
    by (vm_compute; discriminate).
  assert (C2 : (minTouchCount_ Scenario.pan_two_contacts
                <= touchCount Scenario.pan_first_lifted)%Z)
    by (vm_compute; discriminate).
  assert (F1 : JS.isFinite (read getTranslateX Scenario.two_moved) = true)
    by (vm_compute; reflexivity).
  assert (F2 : JS.isFinite
                 (read getTranslateX
                    (refolded Scenario.two_moved Scenario.third_contact))
               = true)
    by (vm_compute; reflexivity).
  assert (M1 : ((1 # 2 ^ 53)
                * steps_magnitude
                    (pageX_ Scenario.two_moved)
                    (centroidStartX_ Scenario.two_moved)
                    (centroidShiftX_ Scenario.two_moved)
                    (fst (centroid (targetTouches Scenario.third_contact)))
                <= 1 # 1000000000000)%Q)
    by (vm_compute; discriminate).
  assert (N2 : no_rounding
                 (pageY_ Scenario.two_moved) (centroidStartY_ Scenario.two_moved)
                 (centroidShiftY_ Scenario.two_moved)
                 (snd (centroid (targetTouches Scenario.third_contact))))
    by (unfold no_rounding, JS.exact_sub, JS.exact_add; vm_compute;
        repeat split).
  assert (N3 : no_rounding
                 (pageX_ Scenario.pan_two_contacts)
                 (centroidStartX_ Scenario.pan_two_contacts)
                 (centroidShiftX_ Scenario.pan_two_contacts)
                 (fst (centroid (targetTouches Scenario.pan_first_lifted))))
    by (unfold no_rounding, JS.exact_sub, JS.exact_add; vm_compute;
        repeat split).
  exact (conj (conj (B1 C1)
                 (conj (Qle_trans _ _ _ (X1 F1 F2) M1) (proj2 (Y1 N2))))
              (conj (E2 C2) (proj2 (X2 N3)))).
Defined.

(* ================================================================== *)
(** ** Every method, in every state *)

Lemma touchesMoved_ignored_run (r : PanRecognizer) (e : TouchEvent) :
  ~ within_touch_range r e ->
  run (touchesMoved e) r = (Normal tt, {| this := r; fired := [] |}).
Proof.
  intros H. unfold within_touch_range, touchCount in H. step_methods.
  destruct (Z.ltb_spec (Z.of_nat (length (targetTouches e))) (minTouchCount_ r));
    [reflexivity|].
  destruct (Z.ltb_spec (maxTouchCount_ r) (Z.of_nat (length (targetTouches e))));
    [reflexivity|].
  exfalso. apply H. split; assumption.
Qed.

Lemma within_touch_range_dec (r : PanRecognizer) (e : TouchEvent) :
  {within_touch_range r e} + {~ within_touch_range r e}.
Proof.
  unfold within_touch_range.
  destruct (Z_le_dec (minTouchCount_ r) (touchCount e));
    destruct (Z_le_dec (touchCount e) (maxTouchCount_ r));
    (left; split; assumption) || (right; intros [? ?]; contradiction).
Qed.

Lemma touchesBegan_run (r : PanRecognizer) (e : TouchEvent) :
  run (touchesBegan e) r
  = if State_eqb (state_ r) CHANGED
    then if (maxTouchCount_ r <? touchCount e)%Z
         then (Normal tt,
               {| this := cleared (set_state_ ENDED (refolded r e));
                  fired := [ENDED] |})
         else (Normal tt, {| this := refolded r e; fired := [] |})
    else (Normal tt,
          {| this := set_page_ (fst (centroid (targetTouches e)))
                               (snd (centroid (targetTouches e))) r;
             fired := [] |}).
Proof.
  unfold touchCount, refolded, cleared. step_methods.
  destruct (State_eqb (state_ r) CHANGED); cbn; [|reflexivity].
  destruct (maxTouchCount_ r <? _)%Z; reflexivity.
Qed.

Lemma touchesEnded_run (r : PanRecognizer) (e : TouchEvent) :
  run (touchesEnded e) r
  = if State_eqb (state_ r) CHANGED
    then if (minTouchCount_ r <=? touchCount e)%Z
         then (Normal tt, {| this := refolded r e; fired := [] |})
         else (Normal tt,
               {| this := cleared (set_state_ ENDED r); fired := [ENDED] |})
    else (Normal tt, {| this := r; fired := [] |}).
Proof.
  unfold touchCount, refolded, cleared. step_methods.
  destruct (State_eqb (state_ r) CHANGED); cbn; [|reflexivity].
  destruct (minTouchCount_ r <=? _)%Z; reflexivity.
Qed.

Lemma touchesCancelled_run (r : PanRecognizer) (e : TouchEvent) :
  run (touchesCancelled e) r
  = (Normal tt,
     {| this := cleared (set_state_ CANCELLED r); fired := [CANCELLED] |}).
Proof. unfold cleared. step_methods. reflexivity. Qed.

Lemma touchesMoved_in_range_run (r : PanRecognizer) (e : TouchEvent) :
  within_touch_range r e ->
  run (touchesMoved e) r
  = if State_eqb (state_ r) POSSIBLE
       && JS.gt (accumulatedDistance r e) (moveHysteresis_ r)
    then (Normal tt, {| this := begun r e; fired := [BEGAN; CHANGED] |})
    else if JS.ToBoolean (JS.or (displacementX r e) (displacementY r e))
            && State_eqb (state_ r) CHANGED
    then (Normal tt,
          {| this := set_state_ CHANGED (moved r e); fired := [CHANGED] |})
    else (Normal tt, {| this := moved r e; fired := [] |}).
Proof. intros H. rewrite (touchesMoved_run r e H). reflexivity. Qed.

Lemma run_bind {A B} (m : M A) (k : A -> M B) (r : PanRecognizer) :
  run (bind m k) r
  = match run m r with
    | (Normal a, w) => k a w
    | (Throw err, w) => (Throw err, w)
    end.
Proof. reflexivity. Qed.

Lemma ToInt32_range (v : JS.number) : (- 2 ^ 31 <= JS.ToInt32 v < 2 ^ 31)%Z.
Proof.
  unfold JS.ToInt32. generalize (JS.truncate v). intros t. cbv zeta.
  change (2 ^ 31)%Z with 2147483648%Z. change (2 ^ 32)%Z with 4294967296%Z.
  pose proof (Z.mod_pos_bound t 4294967296 eq_refl) as B.
  destruct (Z.leb_spec 2147483648 (t mod 4294967296)); lia.
Qed.

(** The touch methods never throw. *)
Lemma touch_outcome (a : Action) (r : PanRecognizer) :
  isTouchEvent a = true -> outcome (dispatch a) r = Normal tt.
Proof.
  intros Ha. unfold outcome. destruct a as [v | v | e | e | e | e];
    try discriminate; cbn [dispatch].
  - rewrite touchesBegan_run.
    destruct (State_eqb _ _); [destruct (_ <? _)%Z|]; reflexivity.
  - destruct (within_touch_range_dec r e) as [H | H].
    + rewrite (touchesMoved_in_range_run r e H).
      destruct (_ && _); [|destruct (_ && _)]; reflexivity.
    + rewrite (touchesMoved_ignored_run r e H). reflexivity.
  - rewrite touchesEnded_run.
    destruct (State_eqb _ _); [destruct (_ <=? _)%Z|]; reflexivity.
  - rewrite touchesCancelled_run. reflexivity.
Qed.

(** What a call leaves of the three parameters. *)
Lemma dispatch_parameters (a : Action) (r : PanRecognizer) :
  moveHysteresis_ (after (dispatch a) r) = moveHysteresis_ r /\
  (isTouchEvent a = true ->
   minTouchCount_ (after (dispatch a) r) = minTouchCount_ r /\
   maxTouchCount_ (after (dispatch a) r) = maxTouchCount_ r).
Proof.
  unfold after. destruct a as [v | v | e | e | e | e]; cbn [dispatch isTouchEvent].
  - rewrite setMinimumTouchCount_run.
    destruct (_ && _); split; try reflexivity; discriminate.
  - rewrite setMaximumTouchCount_run.
    destruct (_ && _); split; try reflexivity; discriminate.
  - rewrite touchesBegan_run.
    destruct (State_eqb _ _); [destruct (_ <? _)%Z|]; repeat split.
  - destruct (within_touch_range_dec r e) as [H | H].
    + rewrite (touchesMoved_in_range_run r e H).
      destruct (_ && _); [|destruct (_ && _)]; repeat split.
    + rewrite (touchesMoved_ignored_run r e H). repeat split.
  - rewrite touchesEnded_run.
    destruct (State_eqb _ _); [destruct (_ <=? _)%Z|]; repeat split.
  - rewrite touchesCancelled_run. repeat split.
Qed.

Lemma performAll_cons (a : Action) (rest : list Action) (r : PanRecognizer) :
  performAll (a :: rest) r = performAll rest (after (dispatch a) r).
Proof. reflexivity. Qed.

(** Each call keeps the recognizer well formed. *)
Lemma dispatch_wellFormed (a : Action) (r : PanRecognizer) :
  wellFormed r -> wellFormed (after (dispatch a) r).
Proof.
  unfold wellFormed, validTouchCount, after.
  intros (Hmin & Hmax & Hh & Hs & Hz).
  destruct a as [v | v | e | e | e | e]; cbn [dispatch].
  - rewrite setMinimumTouchCount_run.
    destruct (State_eqb (state_ r) POSSIBLE && (1 <=? JS.ToInt32 v)%Z) eqn:G;
      cbn; [|tauto].
    apply setter_guard in G. pose proof (ToInt32_range v). intuition lia.
  - rewrite setMaximumTouchCount_run.
    destruct (State_eqb (state_ r) POSSIBLE && (1 <=? JS.ToInt32 v)%Z) eqn:G;
      cbn; [|tauto].
    apply setter_guard in G. pose proof (ToInt32_range v). intuition lia.
  - rewrite touchesBegan_run.
    destruct (State_eqb (state_ r) CHANGED) eqn:E.
    + apply State_eqb_eq in E.
      destruct (_ <? _)%Z; cbn; intuition congruence.
    + cbn. tauto.
  - destruct (within_touch_range_dec r e) as [H | H].
    + rewrite (touchesMoved_in_range_run r e H).
      destruct (State_eqb (state_ r) POSSIBLE && _).
      * cbn. intuition congruence.
      * destruct (_ && _); cbn; [intuition congruence | tauto].
    + rewrite (touchesMoved_ignored_run r e H). cbn. tauto.
  - rewrite touchesEnded_run.
    destruct (State_eqb (state_ r) CHANGED) eqn:E.
    + apply State_eqb_eq in E.
      destruct (_ <=? _)%Z; cbn; intuition congruence.
    + cbn. tauto.
  - rewrite touchesCancelled_run. cbn. intuition congruence.
Qed.

Lemma new_wellFormed : wellFormed new_PanRecognizer.
Proof.
  unfold wellFormed, validTouchCount. cbn.
  repeat split; try reflexivity; try discriminate. left. reflexivity.
Qed.

Lemma performAll_wellFormed (actions : list Action) (r : PanRecognizer) :
  wellFormed r -> wellFormed (performAll actions r).
Proof.
  revert r. induction actions as [| a rest IH]; intros r H; [exact H|].
  rewrite performAll_cons. apply IH, dispatch_wellFormed, H.
Qed.

(* ================================================================== *)
(** ** The end of a gesture *)

(** X1.  In CHANGED, a [touchesEnded] that leaves fewer contacts than
    [minimumTouchCount] ends the gesture: the callback is invoked once and
    reads ENDED, centroidStart, centroidShift and centroidDistance are zero
    afterwards, the three parameters are untouched and the recognizer is
    POSSIBLE again. *)
Theorem touchesEnded_ends_gesture (r : PanRecognizer) (e : TouchEvent) :
  state_ r = CHANGED ->
  (touchCount e < minTouchCount_ r)%Z ->
  let r' := after (touchesEnded e) r in
  outcome (touchesEnded e) r = Normal tt /\
  callbacks (touchesEnded e) r = [ENDED] /\
  centroidStartX_ r' = 0%float /\ centroidStartY_ r' = 0%float /\
  centroidShiftX_ r' = 0%float /\ centroidShiftY_ r' = 0%float /\
  centroidDistance_ r' = 0%float /\
  minTouchCount_ r' = minTouchCount_ r /\
  maxTouchCount_ r' = maxTouchCount_ r /\
  moveHysteresis_ r' = moveHysteresis_ r /\
  state_ r' = POSSIBLE.
Proof.
  intros Hs Hc. apply Z.leb_gt in Hc.
  unfold outcome, after, callbacks. rewrite touchesEnded_run, Hs, Hc.
  cbn. repeat split.
Qed.

Lemma touchesEnded_ends_gesture_witness :
  callbacks (touchesEnded (event [])) Scenario.pan_moved = [ENDED] /\
  centroidDistance_ (after (touchesEnded (event [])) Scenario.pan_moved)
    = 0%float /\
  state_ (after (touchesEnded (event [])) Scenario.pan_moved) = POSSIBLE.
Proof.
  assert (Hs : state_ Scenario.pan_moved = CHANGED)
    by (vm_compute; reflexivity).
  assert (Hc : (touchCount (event []) < minTouchCount_ Scenario.pan_moved)%Z)
    by (vm_compute; reflexivity).
  pose proof (touchesEnded_ends_gesture _ _ Hs Hc) as K. cbv zeta in K.
  split; [apply K | split; apply K].
Defined.

(* ================================================================== *)
(** ** Setting and reading the touch counts *)

Lemma run_seq {B} (m : M unit) (k : M B) (r r' : PanRecognizer) :
  run m r = (Normal tt, {| this := r'; fired := [] |}) ->
  run (m ;; k) r = run k r'.
Proof. intros H. rewrite run_bind, H. reflexivity. Qed.

Lemma setMinimumTouchCount_stores (r : PanRecognizer) (v : JS.number) :
  state_ r = POSSIBLE ->
  (1 <= JS.ToInt32 v)%Z ->
  run (setMinimumTouchCount v) r
  = (Normal tt,
     {| this := set_minTouchCount_ (JS.ToInt32 v) r; fired := [] |}).
Proof.
  intros Hs Hv. rewrite setMinimumTouchCount_run.
  now rewrite (proj2 (setter_guard r (JS.ToInt32 v)) (conj Hs Hv)).
Qed.

Lemma setMaximumTouchCount_stores (r : PanRecognizer) (v : JS.number) :
  state_ r = POSSIBLE ->
  (1 <= JS.ToInt32 v)%Z ->
  run (setMaximumTouchCount v) r
  = (Normal tt,
     {| this := set_maxTouchCount_ (JS.ToInt32 v) r; fired := [] |}).
Proof.
  intros Hs Hv. rewrite setMaximumTouchCount_run.
  now rewrite (proj2 (setter_guard r (JS.ToInt32 v)) (conj Hs Hv)).
Qed.

(** X2.  In POSSIBLE, a getter called after its setter returns the integer
    the setter made of its argument, the other count is unaffected, the two
    setters commute, and of two calls of a setter the last one wins. *)
Theorem setter_getter_round_trip (r : PanRecognizer) (v w : JS.number) :
  state_ r = POSSIBLE ->
  (1 <= JS.ToInt32 v)%Z ->
  (1 <= JS.ToInt32 w)%Z ->
  outcome (setMinimumTouchCount v ;; getMinimumTouchCount) r
    = Normal (JS.ToInt32 v) /\
  outcome (setMaximumTouchCount v ;; getMaximumTouchCount) r
    = Normal (JS.ToInt32 v) /\
  outcome (setMinimumTouchCount v ;; getMaximumTouchCount) r
    = Normal (maxTouchCount_ r) /\
  outcome (setMaximumTouchCount v ;; getMinimumTouchCount) r
    = Normal (minTouchCount_ r) /\
  run (setMinimumTouchCount v ;; setMaximumTouchCount w) r
    = run (setMaximumTouchCount w ;; setMinimumTouchCount v) r /\
  outcome (setMinimumTouchCount v ;; setMinimumTouchCount w ;;
           getMinimumTouchCount) r
    = Normal (JS.ToInt32 w) /\
  outcome (setMaximumTouchCount v ;; setMaximumTouchCount w ;;
           getMaximumTouchCount) r
    = Normal (JS.ToInt32 w).
Proof.
  intros Hs Hv Hw. unfold outcome.
  rewrite !(run_seq _ _ _ _ (setMinimumTouchCount_stores r v Hs Hv)).
  rewrite !(run_seq _ _ _ _ (setMaximumTouchCount_stores r v Hs Hv)).
  rewrite (run_seq _ _ _ _ (setMaximumTouchCount_stores r w Hs Hw)).
  rewrite (run_seq _ _ _ _
             (setMinimumTouchCount_stores
                (set_minTouchCount_ (JS.ToInt32 v) r) w Hs Hw)).
  rewrite (run_seq _ _ _ _
             (setMaximumTouchCount_stores
                (set_maxTouchCount_ (JS.ToInt32 v) r) w Hs Hw)).
  rewrite (setMaximumTouchCount_stores
             (set_minTouchCount_ (JS.ToInt32 v) r) w Hs Hw).
  rewrite (setMinimumTouchCount_stores
             (set_maxTouchCount_ (JS.ToInt32 w) r) v Hs Hv).
  repeat split.
Qed.

Lemma setter_getter_round_trip_witness :
  outcome (setMinimumTouchCount 2 ;; getMinimumTouchCount) new_PanRecognizer
    = Normal 2%Z /\
  outcome (setMinimumTouchCount 2 ;; getMaximumTouchCount) new_PanRecognizer
    = Normal 999%Z /\
  outcome (setMaximumTouchCount 2 ;; setMaximumTouchCount 3.7 ;;
           getMaximumTouchCount) new_PanRecognizer
    = Normal 3%Z.
Proof.
  assert (Hs : state_ new_PanRecognizer = POSSIBLE) by reflexivity.
  assert (H2 : JS.ToInt32 2 = 2%Z) by (vm_compute; reflexivity).
  assert (H3 : JS.ToInt32 3.7 = 3%Z) by (vm_compute; reflexivity).
  assert (G2 : (1 <= JS.ToInt32 2)%Z) by (rewrite H2; discriminate).
  assert (G3 : (1 <= JS.ToInt32 3.7)%Z) by (rewrite H3; discriminate).
  pose proof (setter_getter_round_trip new_PanRecognizer 2%float 3.7%float
                Hs G2 G3) as K.
  rewrite H2, H3 in K.
  destruct K as (K1 & _ & K3 & _ & _ & _ & K7).
  split; [exact K1 | split; [exact K3 | exact K7]].
Defined.

Lemma ToInt32_not_finite (v : JS.number) :
  JS.isFinite v = false -> JS.ToInt32 v = 0%Z.
Proof.
  unfold JS.isFinite, JS.ToInt32, JS.truncate, JS.value.
  destruct (Prim2SF v); try discriminate; intros _; reflexivity.
Qed.

(** X3.  The setters reject NaN and the infinities in every state:
    [value |= 0] makes them 0, the value assertion (or already the state
    assertion) fails, and the recognizer is left as it was. *)
Theorem setters_reject_non_finite (r : PanRecognizer) (v : JS.number) :
  JS.isFinite v = false ->
  run (setMinimumTouchCount v) r
    = (Throw AssertionError, {| this := r; fired := [] |}) /\
  run (setMaximumTouchCount v) r
    = (Throw AssertionError, {| this := r; fired := [] |}).
Proof.
  intros Hv.
  rewrite setMinimumTouchCount_run, setMaximumTouchCount_run.
  rewrite (ToInt32_not_finite v Hv), andb_false_r. split; reflexivity.
Qed.

Lemma setters_reject_non_finite_witness :
  run (setMinimumTouchCount (0 / 0)) new_PanRecognizer
    = (Throw AssertionError, {| this := new_PanRecognizer; fired := [] |}) /\
  run (setMaximumTouchCount PrimFloat.infinity) new_PanRecognizer
    = (Throw AssertionError, {| this := new_PanRecognizer; fired := [] |}).
Proof.
  assert (N : JS.isFinite (0 / 0) = false) by (vm_compute; reflexivity).
  assert (I : JS.isFinite PrimFloat.infinity = false)
    by (vm_compute; reflexivity).
  split.
  - apply (setters_reject_non_finite new_PanRecognizer _ N).
  - apply (setters_reject_non_finite new_PanRecognizer _ I).
Defined.

(* ================================================================== *)
(** ** What the touch methods leave alone *)

(** X4.  No method writes moveHysteresis, over any sequence of calls; a
    touch method never throws, and a sequence of touch methods leaves
    [minimumTouchCount] and [maximumTouchCount] as they were. *)
Theorem parameters_frame (actions : list Action) (r : PanRecognizer) :
  moveHysteresis_ (performAll actions r) = moveHysteresis_ r /\
  (forallb isTouchEvent actions = true ->
   minTouchCount_ (performAll actions r) = minTouchCount_ r /\
   maxTouchCount_ (performAll actions r) = maxTouchCount_ r /\
   forall a, In a actions -> forall r0, outcome (dispatch a) r0 = Normal tt).
Proof.
  revert r. induction actions as [| a rest IH]; intros r.
  - cbn. repeat split. intros a [].
  - rewrite performAll_cons.
    destruct (IH (after (dispatch a) r)) as [Hh Ht].
    destruct (dispatch_parameters a r) as [Ph Pt].
    split; [congruence|].
    cbn [forallb]. intros Hall. apply andb_true_iff in Hall as [Ha Hrest].
    destruct (Ht Hrest) as (Hmin & Hmax & Hout).
    destruct (Pt Ha) as [Pmin Pmax].
    split; [congruence | split; [congruence|]].
    intros b [<- | Hb] r0; [now apply touch_outcome | now apply Hout].
Qed.

Lemma parameters_frame_witness :
  let actions :=
    [TouchesBegan (event [touch 0 100 100]);
     TouchesMoved (event [touch 0 100 108]);
     TouchesBegan Scenario.second_contact;
     TouchesCancelled (event [])] in
  moveHysteresis_ (performAll actions Scenario.single_possible) = 6%float /\
  minTouchCount_ (performAll actions Scenario.single_possible) = 1%Z /\
  maxTouchCount_ (performAll actions Scenario.single_possible) = 1%Z.
Proof.
  intros actions.
  destruct (parameters_frame actions Scenario.single_possible) as [Hh Ht].
  destruct (Ht eq_refl) as (Hmin & Hmax & _).
  rewrite Hh, Hmin, Hmax. vm_compute. repeat split.
Defined.

(* ================================================================== *)
(** ** When a gesture begins *)

(** X5.  Whatever the state and the contact count, [touchesMoved] fires
    BEGAN exactly when the recognizer is POSSIBLE, the contact count is
    within the touch range and the accumulated distance is strictly greater
    than moveHysteresis; the callbacks of the dispatch are then BEGAN and
    CHANGED, in that order. *)
Theorem touchesMoved_begins_iff (r : PanRecognizer) (e : TouchEvent) :
  (In BEGAN (callbacks (touchesMoved e) r)
   <-> state_ r = POSSIBLE /\ within_touch_range r e /\
       JS.gt (accumulatedDistance r e) (moveHysteresis_ r) = true) /\
  (In BEGAN (callbacks (touchesMoved e) r) ->
   callbacks (touchesMoved e) r = [BEGAN; CHANGED]).
Proof.
  unfold callbacks.
  destruct (within_touch_range_dec r e) as [H | H].
  - rewrite (touchesMoved_in_range_run r e H).
    destruct (State_eqb (state_ r) POSSIBLE
              && JS.gt (accumulatedDistance r e) (moveHysteresis_ r)) eqn:G.
    + apply andb_true_iff in G as [Gs Gd]. apply State_eqb_eq in Gs. cbn.
      split; [split; [intros _; exact (conj Gs (conj H Gd)) | intros _; now left]
             | reflexivity].
    + assert (N : ~ (state_ r = POSSIBLE /\ within_touch_range r e /\
                     JS.gt (accumulatedDistance r e) (moveHysteresis_ r)
                     = true)).
      { intros (Hs & _ & Hd). apply State_eqb_eq in Hs.
        rewrite Hs, Hd in G. discriminate. }
      destruct (JS.ToBoolean _ && _); cbn.
      * split; [split|]; try (intros [F | []]; discriminate F).
        intros K. contradiction (N K).
      * split; [split|]; contradiction.
  - rewrite (touchesMoved_ignored_run r e H). cbn. split; [|contradiction].
    split; [contradiction | tauto].
Qed.

Lemma SF64sub_diag (p : spec_float) :
  match p with S754_zero _ | S754_finite _ _ _ => True | _ => False end ->
  SF64sub p p = S754_zero false.
Proof.
  destruct p as [s | s | | s m e]; intros H; try contradiction.
  - destruct s; reflexivity.
  - unfold SF64sub, SFsub. rewrite Z.sub_diag. reflexivity.
Qed.

(** [x - x + 0] is a zero for every finite [x]. *)
Lemma sub_diag_add_zero (x : JS.number) :
  JS.isFinite x = true -> PrimFloat.is_zero (x - x + 0)%float = true.
Proof.
  intros Hx. unfold PrimFloat.is_zero.
  rewrite FloatAxioms.eqb_spec, FloatAxioms.add_spec, FloatAxioms.sub_spec.
  rewrite SF64sub_diag.
  - vm_compute. reflexivity.
  - unfold JS.isFinite in Hx. destruct (Prim2SF x); try discriminate; exact I.
Qed.

(** X6.  When [touchesMoved] begins the gesture at a finite centroid, both
    translations read zero afterwards: the translation is counted from the
    point where the hysteresis was passed, not from where the contact
    landed. *)
Theorem translation_zero_when_begun (r : PanRecognizer) (e : TouchEvent) :
  state_ r = POSSIBLE ->
  within_touch_range r e ->
  JS.gt (accumulatedDistance r e) (moveHysteresis_ r) = true ->
  JS.isFinite (fst (centroid (targetTouches e))) = true ->
  JS.isFinite (snd (centroid (targetTouches e))) = true ->
  let r' := after (touchesMoved e) r in
  state_ r' = CHANGED /\
  PrimFloat.is_zero (read getTranslateX r') = true /\
  PrimFloat.is_zero (read getTranslateY r') = true.
Proof.
  intros Hs Hrange Hd Fx Fy. unfold after.
  rewrite (touchesMoved_POSSIBLE_run r e Hs Hrange), Hd.
  split; [reflexivity|].
  split; [exact (sub_diag_add_zero _ Fx) | exact (sub_diag_add_zero _ Fy)].
Qed.

Lemma translation_zero_when_begun_witness :
  PrimFloat.is_zero (read getTranslateX Scenario.pan_began) = true /\
  PrimFloat.is_zero (read getTranslateY Scenario.pan_began) = true.
Proof.
  assert (Hs : state_ Scenario.pan_landed = POSSIBLE)
    by (vm_compute; reflexivity).
  assert (Hr : within_touch_range Scenario.pan_landed Scenario.pan_first_move)
    by (vm_compute; split; discriminate).
  assert (Hd : JS.gt (accumulatedDistance Scenario.pan_landed
                        Scenario.pan_first_move)
                     (moveHysteresis_ Scenario.pan_landed) = true)
    by (vm_compute; reflexivity).
  assert (Fx : JS.isFinite
                 (fst (centroid (targetTouches Scenario.pan_first_move)))
               = true) by (vm_compute; reflexivity).
  assert (Fy : JS.isFinite
                 (snd (centroid (targetTouches Scenario.pan_first_move)))
               = true) by (vm_compute; reflexivity).
  exact (proj2 (translation_zero_when_begun _ _ Hs Hr Hd Fx Fy)).
Defined.

Lemma touchesMoved_begins_iff_witness :
  callbacks (touchesMoved Scenario.pan_first_move) Scenario.pan_landed
    = [BEGAN; CHANGED] /\
  ~ In BEGAN (callbacks (touchesMoved Scenario.pan_second_move)
                        Scenario.pan_began).
Proof.
  destruct (touchesMoved_begins_iff Scenario.pan_landed
              Scenario.pan_first_move) as [[_ B1] B2].
  destruct (touchesMoved_begins_iff Scenario.pan_began
              Scenario.pan_second_move) as [[N1 _] _].
  split.
  - apply B2, B1. vm_compute. repeat split; discriminate.
  - intros K. apply N1 in K. destruct K as [K _]. vm_compute in K.
    discriminate K.
Defined.

(* ================================================================== *)
(** ** During a gesture *)

(** X7.  In CHANGED, a [touchesMoved] within the touch range leaves
    centroidStart and centroidShift alone, so that the translation
    afterwards is the new centroid minus the start plus the shift, and it
    goes on adding the length of each step to centroidDistance. *)
Theorem touchesMoved_tracks_centroid (r : PanRecognizer) (e : TouchEvent) :
  state_ r = CHANGED ->
  within_touch_range r e ->
  let r' := after (touchesMoved e) r in
  let c := centroid (targetTouches e) in
  state_ r' = CHANGED /\
  centroidStartX_ r' = centroidStartX_ r /\
  centroidStartY_ r' = centroidStartY_ r /\
  centroidShiftX_ r' = centroidShiftX_ r /\
  centroidShiftY_ r' = centroidShiftY_ r /\
  read getTranslateX r'
    = (fst c - centroidStartX_ r + centroidShiftX_ r)%float /\
  read getTranslateY r'
    = (snd c - centroidStartY_ r + centroidShiftY_ r)%float /\
  centroidDistance_ r' = accumulatedDistance r e.
Proof.
  intros Hs Hrange. unfold after.
  rewrite (touchesMoved_CHANGED_run r e Hs Hrange).
  destruct (JS.ToBoolean _); cbn; repeat split; exact Hs.
Qed.

Lemma touchesMoved_tracks_centroid_witness :
  read getTranslateX Scenario.pan_moved = 5%float /\
  centroidDistance_ Scenario.pan_moved = 13%float.
Proof.
  assert (Hs : state_ Scenario.pan_began = CHANGED)
    by (vm_compute; reflexivity).
  assert (Hr : within_touch_range Scenario.pan_began Scenario.pan_second_move)
    by (vm_compute; split; discriminate).
  destruct (touchesMoved_tracks_centroid _ _ Hs Hr)
    as (_ & _ & _ & _ & _ & Kx & _ & Kd).
  split.
  - etransitivity; [exact Kx | vm_compute; reflexivity].
  - etransitivity; [exact Kd | vm_compute; reflexivity].
Defined.

(** X8.  A contact that lands or lifts never adds to centroidDistance:
    [touchesBegan] and [touchesEnded] either fire nothing and leave it as it
    was, or fire ENDED and leave it zero. *)
Theorem contact_change_adds_no_distance (r : PanRecognizer) (e : TouchEvent) :
  (callbacks (touchesBegan e) r = [] /\
   centroidDistance_ (after (touchesBegan e) r) = centroidDistance_ r
   \/ callbacks (touchesBegan e) r = [ENDED] /\
      centroidDistance_ (after (touchesBegan e) r) = 0%float) /\
  (callbacks (touchesEnded e) r = [] /\
   centroidDistance_ (after (touchesEnded e) r) = centroidDistance_ r
   \/ callbacks (touchesEnded e) r = [ENDED] /\
      centroidDistance_ (after (touchesEnded e) r) = 0%float).
Proof.
  unfold callbacks, after. rewrite touchesBegan_run, touchesEnded_run.
  destruct (State_eqb (state_ r) CHANGED);
    [destruct (_ <? _)%Z; destruct (_ <=? _)%Z|]; cbn;
    split; ((left; split; reflexivity) || (right; split; reflexivity)).
Qed.

(* ================================================================== *)
(** ** What the callback is told *)

(** Splits a statement about a callback log that is known, and settles
    each part by cases on the log. *)
Ltac in_hyp K :=
  cbn in K;
  repeat match type of K with
         | _ \/ _ => destruct K as [K | K]
         | False => contradiction
         | _ = _ => try discriminate K
         | exists _, _ => destruct K as [? K]
         end.

Ltac discipline :=
  repeat match goal with
         | |- _ /\ _ => split
         | |- _ <-> _ => split
         end;
  try (let K := fresh "K" in intros K; in_hyp K);
  try discriminate; try contradiction;
  try (split; [assumption | reflexivity]);
  try reflexivity; try (eexists; reflexivity); auto.

(** X9.  In a single call, from any state: BEGAN is reported only when the
    recognizer was POSSIBLE, and then together with CHANGED; ENDED only
    when it was CHANGED, and alone; CHANGED only when it was POSSIBLE or
    CHANGED; CANCELLED by [touchesCancelled] and by nothing else; the
    setters report nothing; and the callback never reads POSSIBLE,
    RECOGNIZED or FAILED. *)
Theorem callback_discipline (a : Action) (r : PanRecognizer) :
  (In BEGAN (callbacks (dispatch a) r) ->
   state_ r = POSSIBLE /\ callbacks (dispatch a) r = [BEGAN; CHANGED]) /\
  (In ENDED (callbacks (dispatch a) r) ->
   state_ r = CHANGED /\ callbacks (dispatch a) r = [ENDED]) /\
  (In CHANGED (callbacks (dispatch a) r) ->
   state_ r = POSSIBLE \/ state_ r = CHANGED) /\
  (In CANCELLED (callbacks (dispatch a) r)
   <-> exists e, a = TouchesCancelled e) /\
  (isTouchEvent a = false -> callbacks (dispatch a) r = []) /\
  ~ In POSSIBLE (callbacks (dispatch a) r) /\
  ~ In RECOGNIZED (callbacks (dispatch a) r) /\
  ~ In FAILED (callbacks (dispatch a) r).
Proof.
  unfold callbacks. destruct a as [v | v | e | e | e | e]; cbn [dispatch].
  - rewrite setMinimumTouchCount_run. destruct (_ && _); cbn; discipline.
  - rewrite setMaximumTouchCount_run. destruct (_ && _); cbn; discipline.
  - rewrite touchesBegan_run.
    destruct (State_eqb (state_ r) CHANGED) eqn:E;
      [apply State_eqb_eq in E; destruct (_ <? _)%Z|]; cbn; discipline.
  - destruct (within_touch_range_dec r e) as [H | H].
    + rewrite (touchesMoved_in_range_run r e H).
      destruct (State_eqb (state_ r) POSSIBLE && _) eqn:G.
      * apply andb_true_iff in G as [G _]. apply State_eqb_eq in G. cbn.
        discipline.
      * destruct (JS.ToBoolean _ && State_eqb (state_ r) CHANGED) eqn:G2.
        -- apply andb_true_iff in G2 as [_ G2]. apply State_eqb_eq in G2. cbn.
           discipline.
        -- cbn. discipline.
    + rewrite (touchesMoved_ignored_run r e H). cbn. discipline.
  - rewrite touchesEnded_run.
    destruct (State_eqb (state_ r) CHANGED) eqn:E;
      [apply State_eqb_eq in E; destruct (_ <=? _)%Z|]; cbn; discipline.
  - rewrite touchesCancelled_run. cbn. discipline.
Qed.

Lemma callback_discipline_witness :
  state_ Scenario.single_changed = CHANGED /\
  callbacks (dispatch (TouchesBegan Scenario.second_contact))
            Scenario.single_changed = [ENDED].
Proof.
  destruct (callback_discipline (TouchesBegan Scenario.second_contact)
              Scenario.single_changed) as (_ & K & _).
  apply K. vm_compute. left. reflexivity.
Defined.

(* ================================================================== *)
(** ** Over sequences of calls *)

(** X10.  Whatever calls are made on a new recognizer, in whatever order and
    with whatever arguments, both touch counts stay positive 32-bit
    integers and moveHysteresis stays 6.  Hence a [touchesMoved] without
    any contact on the target is always ignored, and a [touchesEnded]
    without any contact on the target always ends a gesture in progress. *)
Theorem touch_counts_stay_valid (actions : list Action) :
  let r := performAll actions new_PanRecognizer in
  validTouchCount (minTouchCount_ r) /\
  validTouchCount (maxTouchCount_ r) /\
  moveHysteresis_ r = 6%float /\
  (forall e, targetTouches e = [] ->
     run (touchesMoved e) r = (Normal tt, {| this := r; fired := [] |})) /\
  (forall e, targetTouches e = [] -> state_ r = CHANGED ->
     callbacks (touchesEnded e) r = [ENDED]).
Proof.
  intros r.
  destruct (performAll_wellFormed actions _ new_wellFormed)
    as (Hmin & Hmax & Hh & _). fold r in Hmin, Hmax, Hh.
  split; [exact Hmin | split; [exact Hmax | split; [exact Hh|]]].
  unfold validTouchCount in Hmin. split.
  - intros e He. apply touchesMoved_ignored_run.
    unfold within_touch_range, touchCount. rewrite He. cbn. lia.
  - intros e He Hs. unfold callbacks. rewrite touchesEnded_run, Hs.
    unfold touchCount. rewrite He. cbn [length Z.of_nat State_eqb].
    destruct (Z.leb_spec (minTouchCount_ r) 0); [lia | reflexivity].
Qed.

(** X11.  Whatever calls are made on a new recognizer, it is POSSIBLE or
    CHANGED between two calls (BEGAN, ENDED and CANCELLED are seen by the
    callback only), and while it is POSSIBLE centroidStart and
    centroidShift are zero. *)
Theorem settled_between_calls (actions : list Action) :
  let r := performAll actions new_PanRecognizer in
  (state_ r = POSSIBLE \/ state_ r = CHANGED) /\
  (state_ r = POSSIBLE ->
   centroidStartX_ r = 0%float /\ centroidStartY_ r = 0%float /\
   centroidShiftX_ r = 0%float /\ centroidShiftY_ r = 0%float).
Proof.
  intros r.
  destruct (performAll_wellFormed actions _ new_wellFormed)
    as (_ & _ & _ & Hs & Hz).
  split; [exact Hs | exact Hz].
Qed.

Lemma settled_between_calls_witness :
  let r := performAll [TouchesBegan (event [touch 0 100 100]);
                       TouchesMoved (event [touch 0 100 108]);
                       TouchesCancelled (event [])] new_PanRecognizer in
  state_ r = POSSIBLE /\
  centroidStartX_ r = 0%float /\ centroidStartY_ r = 0%float /\
  centroidShiftX_ r = 0%float /\ centroidShiftY_ r = 0%float.
Proof.
  intros r.
  assert (Hs : state_ r = POSSIBLE) by (vm_compute; reflexivity).
  split; [exact Hs|].
  exact (proj2 (settled_between_calls
                  [TouchesBegan (event [touch 0 100 100]);
                   TouchesMoved (event [touch 0 100 108]);
                   TouchesCancelled (event [])]) Hs).
Defined.

Lemma dispatch_lifecycle (a : Action) (r : PanRecognizer) (rest : list State) :
  state_ r = POSSIBLE \/ state_ r = CHANGED ->
  lifecycle (State_eqb (state_ (after (dispatch a) r)) CHANGED) rest = true ->
  lifecycle (State_eqb (state_ r) CHANGED) (callbacks (dispatch a) r ++ rest)
  = true.
Proof.
  intros Hs. unfold after, callbacks.
  destruct a as [v | v | e | e | e | e]; cbn [dispatch].
  - rewrite setMinimumTouchCount_run. destruct (_ && _); cbn; auto.
  - rewrite setMaximumTouchCount_run. destruct (_ && _); cbn; auto.
  - rewrite touchesBegan_run.
    destruct Hs as [Hs | Hs]; rewrite Hs; cbn; rewrite ?Hs; cbn; auto.
    destruct (_ <? _)%Z; cbn; rewrite ?Hs; cbn; auto.
  - destruct (within_touch_range_dec r e) as [H | H].
    + rewrite (touchesMoved_in_range_run r e H).
      destruct Hs as [Hs | Hs]; rewrite Hs; cbn [State_eqb andb].
      * rewrite andb_false_r.
        destruct (JS.gt _ _); cbn; rewrite ?Hs; cbn; auto.
      * rewrite andb_true_r.
        destruct (JS.ToBoolean _); cbn; rewrite ?Hs; cbn; auto.
    + rewrite (touchesMoved_ignored_run r e H). cbn. auto.
  - rewrite touchesEnded_run.
    destruct Hs as [Hs | Hs]; rewrite Hs; cbn; rewrite ?Hs; cbn; auto.
    destruct (_ <=? _)%Z; cbn; rewrite ?Hs; cbn; auto.
  - rewrite touchesCancelled_run. cbn.
    destruct (State_eqb (state_ r) CHANGED); auto.
Qed.

Lemma traceAll_lifecycle (actions : list Action) (r : PanRecognizer) :
  wellFormed r ->
  lifecycle (State_eqb (state_ r) CHANGED) (traceAll actions r) = true.
Proof.
  revert r. induction actions as [| a rest IH]; intros r H; [reflexivity|].
  cbn [traceAll]. apply dispatch_lifecycle.
  - apply H.
  - apply IH, dispatch_wellFormed, H.
Qed.

(** X12.  Whatever calls are made on a new recognizer, what the callback is
    told is a well-formed succession of gestures: each opens with BEGAN and
    CHANGED in one dispatch, continues with CHANGED only, and closes with
    ENDED or CANCELLED before the next one opens; between gestures only
    CANCELLED is reported. *)
Theorem reported_lifecycle (actions : list Action) :
  lifecycle false (traceAll actions new_PanRecognizer) = true.
Proof. exact (traceAll_lifecycle actions new_PanRecognizer new_wellFormed). Qed.

Lemma touch_event_while_blocked (a : Action) (r : PanRecognizer) :
  isTouchEvent a = true ->
  (maxTouchCount_ r < minTouchCount_ r)%Z ->
  state_ r = POSSIBLE ->
  (forall s, In s (callbacks (dispatch a) r) -> s = CANCELLED) /\
  state_ (after (dispatch a) r) = POSSIBLE.
Proof.
  intros Ha Hc Hs. unfold callbacks, after.
  destruct a as [v | v | e | e | e | e]; try discriminate; cbn [dispatch].
  - rewrite touchesBegan_run, Hs. cbn. split; [contradiction | exact Hs].
  - rewrite touchesMoved_ignored_run.
    + cbn. split; [contradiction | exact Hs].
    + unfold within_touch_range. lia.
  - rewrite touchesEnded_run, Hs. cbn. split; [contradiction | exact Hs].
  - rewrite touchesCancelled_run. cbn. split; [|reflexivity].
    intros s [<- | []]. reflexivity.
Qed.

(** X13.  The setters do not compare the two counts with each other.  Once
    [minimumTouchCount] exceeds [maximumTouchCount], every [touchesMoved]
    is out of range: over any sequence of touch events a POSSIBLE
    recognizer stays POSSIBLE and the callback is told nothing but
    CANCELLED, so no gesture ever begins. *)
Theorem inverted_range_never_begins
  (actions : list Action) (r : PanRecognizer) :
  forallb isTouchEvent actions = true ->
  (maxTouchCount_ r < minTouchCount_ r)%Z ->
  state_ r = POSSIBLE ->
  (forall s, In s (traceAll actions r) -> s = CANCELLED) /\
  state_ (performAll actions r) = POSSIBLE.
Proof.
  revert r. induction actions as [| a rest IH]; intros r Hall Hc Hs.
  - split; [intros s [] | exact Hs].
  - cbn [forallb] in Hall. apply andb_true_iff in Hall as [Ha Hrest].
    destruct (touch_event_while_blocked a r Ha Hc Hs) as [Hlog Hstate].
    destruct (dispatch_parameters a r) as [_ Hp].
    destruct (Hp Ha) as [Hmin Hmax].
    assert (Hc' : (maxTouchCount_ (after (dispatch a) r)
                   < minTouchCount_ (after (dispatch a) r))%Z)
      by (rewrite Hmin, Hmax; exact Hc).
    destruct (IH _ Hrest Hc' Hstate) as [IHlog IHstate].
    rewrite performAll_cons. split; [|exact IHstate].
    cbn [traceAll]. intros s Hin. apply in_app_or in Hin as [Hin | Hin].
    + now apply Hlog.
    + now apply IHlog.
Qed.

Lemma inverted_range_never_begins_witness :
  minTouchCount_ inverted = 5%Z /\
  maxTouchCount_ inverted = 2%Z /\
  (forall s, In s (traceAll two_finger_pan inverted) -> s = CANCELLED) /\
  state_ (performAll two_finger_pan inverted) = POSSIBLE /\
  traceAll two_finger_pan new_PanRecognizer
    = [BEGAN; CHANGED; CANCELLED].
Proof.
  assert (Hall : forallb isTouchEvent two_finger_pan = true) by reflexivity.
  assert (Hc : (maxTouchCount_ inverted < minTouchCount_ inverted)%Z)
    by (vm_compute; reflexivity).
  assert (Hs : state_ inverted = POSSIBLE) by (vm_compute; reflexivity).
  destruct (inverted_range_never_begins two_finger_pan inverted Hall Hc Hs)
    as [Hlog Hstate].
  split; [vm_compute; reflexivity | split; [vm_compute; reflexivity|]].
  split; [exact Hlog | split; [exact Hstate | vm_compute; reflexivity]].
Defined.

Lemma touch_counts_stay_valid_witness :
  let r := performAll [SetMinimumTouchCount 2; SetMaximumTouchCount 4294967298.5;
                       SetMaximumTouchCount (-3);
                       TouchesBegan (event [touch 0 100 100; touch 1 120 100]);
                       TouchesMoved (event [touch 0 100 200; touch 1 120 200])]
                      new_PanRecognizer in
  minTouchCount_ r = 2%Z /\ maxTouchCount_ r = 2%Z /\
  state_ r = CHANGED /\
  run (touchesMoved (event [])) r = (Normal tt, {| this := r; fired := [] |}) /\
  callbacks (touchesEnded (event [])) r = [ENDED].
Proof.
  intros r.
  destruct (touch_counts_stay_valid
              [SetMinimumTouchCount 2; SetMaximumTouchCount 4294967298.5;
               SetMaximumTouchCount (-3);
               TouchesBegan (event [touch 0 100 100; touch 1 120 100]);
               TouchesMoved (event [touch 0 100 200; touch 1 120 200])])
    as (_ & _ & _ & Km & Ke).
  fold r in Km, Ke.
  assert (Hs : state_ r = CHANGED) by (vm_compute; reflexivity).
  split; [vm_compute; reflexivity | split; [vm_compute; reflexivity|]].
  split; [exact Hs | split; [exact (Km (event []) eq_refl)|]].
  exact (Ke (event []) eq_refl Hs).
Defined.
